(** * ProcessScheduler: the scheduling solver (processscheduler/solver.py)

    A shallow embedding of [SchedulingSolver]: the constraints it stages into
    the z3 engine, the objectives it builds, and the solve / diversification
    protocol.  The z3 engine itself is an external collaborator: every call of
    [check] is answered by an [engine], a function from the staged solver to
    the engine's reply, supplied by the environment. *)

From stdpp Require Import base option list strings gmap.
From Stdlib Require Import ZArith Lia.

Set Warnings "-register-all".

Local Open Scope string_scope.
Local Open Scope list_scope.
Local Open Scope Z_scope.

(** ** z3 expressions, as far as solver.py builds them *)

Module z3.

(** Integer-sorted expressions ([ArithRef]). *)
Inductive term : Type :=
| IntVal (z : Z)
| Int (name : string)
| Add (args : list term)
| Sub (a b : term)
| Mul (a b : term).

(** Boolean-sorted expressions ([BoolRef]). *)
Inductive formula : Type :=
| BoolVal (b : bool)
| Ge (a b : term)
| Le (a b : term)
| Eq (a b : term)
| Ne (a b : term)
| Not (f : formula)
| And (args : list formula)
| Or (args : list formula).

(** A model binds integer constants to values ([ModelRef]); a constant the
    engine left out is a don't-care and reads as 0 under model completion. *)
Definition interp (m : gmap string Z) (name : string) : Z :=
  default 0 (m !! name).

Fixpoint eval (m : gmap string Z) (t : term) : Z :=
  match t with
  | IntVal z => z
  | Int name => interp m name
  | Add args => foldr (fun a acc => eval m a + acc) 0 args
  | Sub a b => eval m a - eval m b
  | Mul a b => eval m a * eval m b
  end.

Fixpoint holds (m : gmap string Z) (f : formula) : bool :=
  match f with
  | BoolVal b => b
  | Ge a b => eval m b <=? eval m a
  | Le a b => eval m a <=? eval m b
  | Eq a b => eval m a =? eval m b
  | Ne a b => negb (eval m a =? eval m b)
  | Not g => negb (holds m g)
  | And args => foldr (fun g acc => holds m g && acc) true args
  | Or args => foldr (fun g acc => holds m g || acc) false args
  end.

(** [Sum] of z3py: the empty sum is the Python integer 0, anything else an
    n-ary addition node. *)
Inductive py_or_term : Type :=
| PyInt (z : Z)
| Expr (t : term).

Definition Sum (args : list term) : py_or_term :=
  match args with
  | [] => PyInt 0
  | _ => Expr (Add args)
  end.

(** [x >= n] for a Python integer [n]: a Python comparison (hence a Python
    bool, cast to a Boolean value when it is asserted) when [x] is a Python
    integer, an expression otherwise. *)
Definition ge_int (x : py_or_term) (n : Z) : formula :=
  match x with
  | PyInt z => BoolVal (n <=? z)
  | Expr t => Ge t (IntVal n)
  end.

Inductive CheckSatResult : Type := sat | unsat | unknown.

Inductive solver_kind : Type :=
| Optimize            (* Optimize() *)
| SolverFor_QF_LIA.   (* SolverFor('QF_LIA') *)

Inductive target : Type :=
| minimize (t : term)
| maximize (t : term).

(** What has been staged into the engine. *)
Record solver : Type := mk_solver {
  kind : solver_kind;
  assertions : list formula;
  targets : list target;
}.

Definition add (f : formula) (s : solver) : solver :=
  {| kind := kind s; assertions := assertions s ++ [f]; targets := targets s |}.

Definition add_target (t : target) (s : solver) : solver :=
  {| kind := kind s; assertions := assertions s; targets := targets s ++ [t] |}.

(** The engine's answers to one [check()] and to the queries that may
    follow it. *)
Record reply : Type := mk_reply {
  check : CheckSatResult;
  reason_unknown : string;
  model : gmap string Z;
  statistics : list (string * string);
}.

Definition engine : Type := solver -> reply.

(** The one property of the engine the orchestration relies on: a [sat]
    verdict comes with a model of every staged assertion. *)
Definition sound (e : engine) : Prop :=
  forall s, check (e s) = sat ->
    Forall (fun f => holds (model (e s)) f = true) (assertions s).

End z3.

Import z3.

(** ** The problem model, as solver.py reads it *)

Inductive ObjectiveType : Type := MAKESPAN | FLOWTIME | EARLIEST | LATEST.

Module Resource.
Record t : Type := mk {
  name : string;
  productivity : Z;
  (* busy_intervals[task] = (lower, upper); a task is identified by its name *)
  busy_intervals : gmap string (term * term);
  get_assertions : list formula;
}.
End Resource.

Module Task.
Record t : Type := mk {
  name : string;
  start : term;
  end_ : term;
  lower_bounded : bool;
  upper_bounded : bool;
  work_amount : Z;   (* an integer amount of work, 0 by default *)
  required_resources : list Resource.t;
  get_assertions : list formula;
}.
End Task.

(** The scheduling problem is used through this interface only; the class
    that implements it lives outside solver.py. *)
Class SchedulingProblem (P : Type) : Type := {
  name : P -> string;
  horizon : P -> term;
  objectives : P -> list ObjectiveType;
  get_tasks : P -> list Task.t;
  get_resources : P -> list Resource.t;
  _constraints : P -> list formula;
  set_solution : P -> gmap string Z -> P;
}.

(** ** What a run of the solver does to the outside world *)

Inductive option_value : Type :=
| OInt (z : Z)
| OBool (b : bool).

Inductive event : Type :=
| set_option (key : string) (value : option_value)
| print (line : string)
| print_timing (problem_name : string)   (* '%s Satisfiability checked in %.2fs' *)
| print_assertion (f : formula)          (* "\t", assertion *)
| print_statistic (key value : string)   (* '\t%s: %s' *)
| print_binding (var_name : string) (var_value : Z)  (* "\t%s=%s" *)
| warn (message : string)
| solver_check
| solver_assertions
| solver_reason_unknown
| solver_model
| solver_statistics
| problem_set_solution (solution : gmap string Z).

Inductive exn : Type :=
| KeyError (key : string)
| AttributeError (attribute : string).

Section Solver.

Context {P : Type} `{SchedulingProblem P}.

Record SchedulingSolver : Type := mk_self {
  _problem : P;
  _verbosity : bool;
  _solver : z3.solver;
  current_solution : option (gmap string Z);
}.

(** Methods run on [self], may raise, and emit events. *)
Definition M (A : Type) : Type :=
  SchedulingSolver -> (exn + A) * SchedulingSolver * list event.

#[global] Instance M_ret : MRet M := fun A a self => (inr a, self, []).

#[global] Instance M_bind : MBind M := fun A B f m self =>
  match m self with
  | (inl e, self', out) => (inl e, self', out)
  | (inr a, self', out) =>
      let '(r, self'', out') := f a self' in (r, self'', out ++ out')
  end.

Definition raise {A} (e : exn) : M A := fun self => (inl e, self, []).
Definition emit (ev : event) : M unit := fun self => (inr tt, self, [ev]).
Definition get_self : M SchedulingSolver := fun self => (inr self, self, []).
Definition put_self (self' : SchedulingSolver) : M unit :=
  fun _ => (inr tt, self', []).

Definition when (b : bool) (body : M unit) : M unit :=
  if b then body else mret tt.

Fixpoint for_each {A} (xs : list A) (body : A -> M unit) : M unit :=
  match xs with
  | [] => mret tt
  | x :: rest => body x ;; for_each rest body
  end.

Definition set_solver (s : z3.solver) : M unit := fun self =>
  (inr tt, mk_self (_problem self) (_verbosity self) s (current_solution self), []).

(* self._solver.add(f) *)
Definition solver_add (f : formula) : M unit := fun self =>
  (inr tt, mk_self (_problem self) (_verbosity self) (z3.add f (_solver self))
                   (current_solution self), []).

(* self._solver.add([f1, ..., fn]) *)
Definition solver_add_all (fs : list formula) : M unit :=
  for_each fs solver_add.

Definition solver_minimize (t : term) : M unit := fun self =>
  (inr tt, mk_self (_problem self) (_verbosity self)
                   (z3.add_target (minimize t) (_solver self))
                   (current_solution self), []).

Definition solver_maximize (t : term) : M unit := fun self =>
  (inr tt, mk_self (_problem self) (_verbosity self)
                   (z3.add_target (maximize t) (_solver self))
                   (current_solution self), []).

(** *** create_objectives *)

Definition eq_sum (t : term) (x : py_or_term) : formula :=
  match x with
  | PyInt z => Eq t (IntVal z)
  | Expr u => Eq t u
  end.

Definition create_objective (problem : P) (tasks : list Task.t)
    (obj : ObjectiveType) : M unit :=
  match obj with
  | MAKESPAN =>
      solver_minimize (horizon problem)
  | LATEST =>
      let mini := Int "SmallestStartTime" in
      solver_add (Or (map (fun task => Eq mini (Task.start task)) tasks)) ;;
      for_each tasks (fun tsk => solver_add (Le mini (Task.start tsk))) ;;
      solver_maximize mini
  | FLOWTIME =>
      let flowtime := Int "FlowTime" in
      solver_add (eq_sum flowtime (Sum (map Task.end_ tasks))) ;;
      solver_minimize flowtime
  | EARLIEST =>
      let maxi := Int "GreatestStartTime" in
      solver_add (Or (map (fun task => Eq maxi (Task.start task)) tasks)) ;;
      for_each tasks (fun tsk => solver_add (Ge maxi (Task.start tsk))) ;;
      solver_minimize maxi
  end.

Definition create_objectives : M unit :=
  self ← get_self ;
  let tasks := get_tasks (_problem self) in
  for_each (objectives (_problem self)) (create_objective (_problem self) tasks).

(** *** process_work_amount *)

(* work contribution for the resource; the dictionary lookup raises when
   the resource holds no busy interval for the task *)
Definition work_contribution (task : Task.t) (required_resource : Resource.t)
    : M term :=
  match Resource.busy_intervals required_resource !! Task.name task with
  | None => raise (KeyError (Task.name task))
  | Some (interv_low, interv_up) =>
      mret (Mul (IntVal (Resource.productivity required_resource))
                (Sub interv_up interv_low))
  end.

Fixpoint collect {A B} (f : A -> M B) (xs : list A) : M (list B) :=
  match xs with
  | [] => mret []
  | x :: rest => y ← f x ; ys ← collect f rest ; mret (y :: ys)
  end.

Definition process_task_work_amount (task : Task.t) : M unit :=
  if 0 <? Task.work_amount task then
    work_total_for_all_resources ←
      collect (work_contribution task) (Task.required_resources task) ;
    solver_add (ge_int (Sum work_total_for_all_resources) (Task.work_amount task))
  else mret tt.

Definition process_work_amount : M unit :=
  self ← get_self ;
  for_each (get_tasks (_problem self)) process_task_work_amount.

(** *** __init__ *)

Definition stage_task (problem : P) (task : Task.t) : M unit :=
  solver_add_all (Task.get_assertions task) ;;
  (* bound start and end *)
  solver_add (Ge (Task.end_ task) (IntVal 0)) ;;
  when (negb (Task.lower_bounded task))
    (solver_add (Ge (Task.start task) (IntVal 0))) ;;
  when (negb (Task.upper_bounded task))
    (solver_add (Le (Task.end_ task) (horizon problem))).

Definition init_body (problem : P) (verbosity : bool) (max_time : Z)
    (parallel : bool) : M unit :=
  when verbosity (emit (set_option "verbose" (OInt 2))) ;;
  (* set timeout, in ms *)
  emit (set_option "timeout" (OInt (max_time * 1000))) ;;
  (* create the solver *)
  match objectives problem with
  | _ :: _ =>
      set_solver (mk_solver Optimize [] []) ;;
      when verbosity (emit (print "Solver with optimization enabled"))
  | [] =>
      set_solver (mk_solver SolverFor_QF_LIA [] []) ;;
      when verbosity (emit (print "Solver without optimization enabled"))
  end ;;
  when parallel
    (emit (set_option "parallel.enable" (OBool true)) ;;
     emit (set_option "parallel.threads.max" (OInt 4))) ;;
  (* add all tasks assertions to the solver *)
  for_each (get_tasks problem) (stage_task problem) ;;
  (* then process tasks constraints *)
  for_each (_constraints problem) solver_add ;;
  (* process resources requirements *)
  for_each (get_resources problem)
    (fun ress => solver_add_all (Resource.get_assertions ress)) ;;
  process_work_amount ;;
  create_objectives.
  (* self.current_solution = None: see [blank] *)

(** The object before [__init__] has assigned anything: no solver staged,
    and [current_solution] already at the [None] it ends up with (nothing
    reads it in between). *)
Definition blank (problem : P) (verbosity : bool) : SchedulingSolver :=
  mk_self problem verbosity (mk_solver SolverFor_QF_LIA [] []) None.

Definition __init__ (problem : P) (verbosity : bool) (max_time : Z)
    (parallel : bool) : (exn + SchedulingSolver) * list event :=
  match init_body problem verbosity max_time parallel (blank problem verbosity) with
  | (inl e, _, out) => (inl e, out)
  | (inr _, self, out) => (inr self, out)
  end.

(** *** check_sat *)

Definition check_sat (engine : z3.engine) : M bool :=
  self ← get_self ;
  emit solver_check ;;
  let sat_result := check (engine (_solver self)) in
  emit (print_timing (name (_problem self))) ;;
  when (_verbosity self)
    (emit solver_assertions ;;
     for_each (assertions (_solver self))
       (fun assertion => emit (print_assertion assertion))) ;;
  match sat_result with
  | unsat =>
      emit (print ("No solution exists for problem "
                   +:+ name (_problem self) +:+ ".")) ;;
      mret false
  | unknown =>
      emit solver_reason_unknown ;;
      let reason := reason_unknown (engine (_solver self)) in
      emit (print ("No solution can be found for problem "
                   +:+ name (_problem self) +:+ " because: " +:+ reason)) ;;
      mret false
  | sat => mret true
  end.

(** *** solve *)

Definition solve (engine : z3.engine) : M bool :=
  (* first check satisfiability *)
  ok ← check_sat engine ;
  if negb ok then mret false
  else
    self ← get_self ;
    emit solver_model ;;
    let solution := model (engine (_solver self)) in
    when (_verbosity self)
      (emit (print "Solver satistics:") ;;
       emit solver_statistics ;;
       for_each (statistics (engine (_solver self)))
         (fun '(key, value) => emit (print_statistic key value)) ;;
       emit (print "Solution:") ;;
       for_each (map_to_list solution)
         (fun '(var_name, var_value) => emit (print_binding var_name var_value))) ;;
    (* propagate the result to the scenario *)
    emit (problem_set_solution solution) ;;
    put_self (mk_self (set_solution (_problem self) solution)
                      (_verbosity self) (_solver self) (current_solution self)) ;;
    self ← get_self ;
    put_self (mk_self (_problem self) (_verbosity self) (_solver self)
                      (Some solution)) ;;
    mret true.

(** *** find_another_solution *)

Definition find_another_solution (engine : z3.engine) (variable : string)
    : M bool :=
  self ← get_self ;
  match current_solution self with
  | None =>
      emit (warn "No current solution. First call the solve() method.") ;;
      mret false
  | Some solution =>
      match solution !! variable with
      | None => raise (AttributeError "as_long")
      | Some current_variable_value =>
          solver_add (Ne (Int variable) (IntVal current_variable_value)) ;;
          solve engine
      end
  end.

(** ** Sessions: any sequence of calls on one solver

    Each call comes with the engine behaviour it meets.  A call that raises
    leaves the object as it was at the raise, and the session goes on. *)

Inductive call : Type :=
| Solve
| FindAnotherSolution (variable : string).

Definition perform (c : call) (engine : z3.engine) : M bool :=
  match c with
  | Solve => solve engine
  | FindAnotherSolution variable => find_another_solution engine variable
  end.

Fixpoint run (calls : list (call * z3.engine)) (self : SchedulingSolver)
    : list (exn + bool) * SchedulingSolver * list event :=
  match calls with
  | [] => ([], self, [])
  | (c, engine) :: rest =>
      let '(r, self', out) := perform c engine self in
      let '(rs, self'', out') := run rest self' in
      (r :: rs, self'', out ++ out')
  end.

Definition final (calls : list (call * z3.engine)) (self : SchedulingSolver)
    : SchedulingSolver :=
  (run calls self).1.2.

Definition results (calls : list (call * z3.engine)) (self : SchedulingSolver)
    : list (exn + bool) :=
  (run calls self).1.1.

End Solver.

Arguments SchedulingSolver P : clear implicits.
Arguments M P : clear implicits.

(** ** A concrete problem model *)

Module Problem.

(** Modelled from the spec: the Problem Model class is not part of
    solver.py.  It is a registry of tasks, resources and raw constraints
    with a horizon, and it stores the Solution handed to [set_solution],
    which replaces any previous one. *)
Record t : Type := mk {
  name : string;
  horizon : term;
  objectives : list ObjectiveType;
  tasks : list Task.t;
  resources : list Resource.t;
  constraints : list formula;
  solution : option (gmap string Z);
}.

Definition set_solution (p : t) (m : gmap string Z) : t :=
  mk (name p) (horizon p) (objectives p) (tasks p) (resources p)
     (constraints p) (Some m).

End Problem.

#[global] Instance Problem_SchedulingProblem : SchedulingProblem Problem.t := {|
  name := Problem.name;
  horizon := Problem.horizon;
  objectives := Problem.objectives;
  get_tasks := Problem.tasks;
  get_resources := Problem.resources;
  _constraints := Problem.constraints;
  set_solution := Problem.set_solution;
|}.

(** A small engine for the examples: it tries a fixed list of candidate
    models in order, answers [sat] with the first one that satisfies every
    staged assertion, and gives up with [unknown] otherwise. *)
Definition search (candidates : list (gmap string Z)) : z3.engine := fun s =>
  match List.find (fun m => forallb (holds m) (assertions s)) candidates with
  | Some m => mk_reply sat EmptyString m []
  | None => mk_reply unknown "incomplete" ∅ []
  end.

(** ** Specification vocabulary

    What the methods stage, print and retain, written out declaratively. *)

Section Specification.

Context {P : Type} `{SchedulingProblem P}.

(** [self] with further assertions and targets staged into its engine. *)
Definition staged (self : SchedulingSolver P) (fs : list formula)
    (ts : list target) : SchedulingSolver P :=
  mk_self (_problem self) (_verbosity self)
    (mk_solver (kind (_solver self))
               (assertions (_solver self) ++ fs)
               (targets (_solver self) ++ ts))
    (current_solution self).

(** The busy interval a resource holds for a task. *)
Definition busy_interval (r : Resource.t) (task : Task.t) : term * term :=
  default (IntVal 0, IntVal 0) (Resource.busy_intervals r !! Task.name task).

(** The work all required resources of [task] deliver in the schedule [m]:
    productivity times the length of the busy interval, summed. *)
Definition total_work (m : gmap string Z) (task : Task.t) : Z :=
  foldr (fun r acc =>
           Resource.productivity r
           * (eval m (busy_interval r task).2 - eval m (busy_interval r task).1)
           + acc)
        0 (Task.required_resources task).

(** [f] says that the work delivered to [task] reaches its work amount. *)
Definition work_amount_constraint (task : Task.t) (f : formula) : Prop :=
  forall m, holds m f = (Task.work_amount task <=? total_work m task).

(** Every required resource of a task that asks for work holds a busy
    interval for it (the upstream assignment logic sees to that). *)
Definition intervals_populated (tasks : list Task.t) : Prop :=
  forall task r, task ∈ tasks -> 0 < Task.work_amount task ->
    r ∈ Task.required_resources task ->
    is_Some (Resource.busy_intervals r !! Task.name task).

Definition contribution_term (task : Task.t) (r : Resource.t) : term :=
  Mul (IntVal (Resource.productivity r))
      (Sub (busy_interval r task).2 (busy_interval r task).1).

Definition work_amount_assertions (task : Task.t) : list formula :=
  if 0 <? Task.work_amount task then
    [ge_int (Sum (map (contribution_term task) (Task.required_resources task)))
            (Task.work_amount task)]
  else [].

Definition task_assertions (problem : P) (task : Task.t) : list formula :=
  Task.get_assertions task
  ++ [Ge (Task.end_ task) (IntVal 0)]
  ++ (if Task.lower_bounded task then [] else [Ge (Task.start task) (IntVal 0)])
  ++ (if Task.upper_bounded task then [] else [Le (Task.end_ task) (horizon problem)]).

Definition objective_assertions (tasks : list Task.t) (obj : ObjectiveType)
    : list formula :=
  match obj with
  | MAKESPAN => []
  | LATEST =>
      Or (map (fun task => Eq (Int "SmallestStartTime") (Task.start task)) tasks)
      :: map (fun task => Le (Int "SmallestStartTime") (Task.start task)) tasks
  | FLOWTIME => [eq_sum (Int "FlowTime") (Sum (map Task.end_ tasks))]
  | EARLIEST =>
      Or (map (fun task => Eq (Int "GreatestStartTime") (Task.start task)) tasks)
      :: map (fun task => Ge (Int "GreatestStartTime") (Task.start task)) tasks
  end.

Definition objective_targets (problem : P) (obj : ObjectiveType) : list target :=
  match obj with
  | MAKESPAN => [minimize (horizon problem)]
  | LATEST => [maximize (Int "SmallestStartTime")]
  | FLOWTIME => [minimize (Int "FlowTime")]
  | EARLIEST => [minimize (Int "GreatestStartTime")]
  end.

Definition init_kind (problem : P) : solver_kind :=
  match objectives problem with
  | [] => SolverFor_QF_LIA
  | _ :: _ => Optimize
  end.

Definition init_assertions (problem : P) : list formula :=
  concat (map (task_assertions problem) (get_tasks problem))
  ++ _constraints problem
  ++ concat (map Resource.get_assertions (get_resources problem))
  ++ concat (map work_amount_assertions (get_tasks problem))
  ++ concat (map (objective_assertions (get_tasks problem)) (objectives problem)).

Definition init_targets (problem : P) : list target :=
  concat (map (objective_targets problem) (objectives problem)).

Definition init_solver (problem : P) : z3.solver :=
  mk_solver (init_kind problem) (init_assertions problem) (init_targets problem).

(** What [check_sat] prints and asks of the engine. *)
Definition check_sat_report (engine : z3.engine) (self : SchedulingSolver P)
    : list event :=
  [solver_check; print_timing (name (_problem self))]
  ++ (if _verbosity self then
        solver_assertions :: map print_assertion (assertions (_solver self))
      else [])
  ++ match check (engine (_solver self)) with
     | unsat =>
         [print ("No solution exists for problem " +:+ name (_problem self) +:+ ".")]
     | unknown =>
         [solver_reason_unknown;
          print ("No solution can be found for problem " +:+ name (_problem self)
                 +:+ " because: " +:+ reason_unknown (engine (_solver self)))]
     | sat => []
     end.

(** What [solve] adds to that on the success path. *)
Definition solve_report (engine : z3.engine) (self : SchedulingSolver P)
    : list event :=
  let solution := model (engine (_solver self)) in
  [solver_model]
  ++ (if _verbosity self then
        [print "Solver satistics:"; solver_statistics]
        ++ map (fun '(key, value) => print_statistic key value)
               (statistics (engine (_solver self)))
        ++ [print "Solution:"]
        ++ map (fun '(var_name, var_value) => print_binding var_name var_value)
               (map_to_list solution)
      else [])
  ++ [problem_set_solution solution].

Definition solved (engine : z3.engine) (self : SchedulingSolver P)
    : SchedulingSolver P :=
  mk_self (set_solution (_problem self) (model (engine (_solver self))))
          (_verbosity self) (_solver self)
          (Some (model (engine (_solver self)))).

Definition is_sat (r : CheckSatResult) : bool :=
  match r with sat => true | _ => false end.

(** The models handed to [set_solution], and the number of models
    retrieved from the engine, in a trace. *)
Definition set_solution_calls (out : list event) : list (gmap string Z) :=
  omap (fun ev => match ev with problem_set_solution m => Some m | _ => None end) out.

Definition model_retrievals (out : list event) : nat :=
  length (List.filter (fun ev => match ev with solver_model => true | _ => false end) out).

(** Printing neither retrieves a model nor touches the problem. *)
Definition quiet (ev : event) : Prop :=
  match ev with
  | solver_model | problem_set_solution _ => False
  | _ => True
  end.

Definition sound_calls (calls : list (call * z3.engine)) : Prop :=
  Forall (fun ce => z3.sound ce.2) calls.

(** Every resource in [rs] holds a busy interval for [task]. *)
Definition resources_populatedb (task : Task.t) (rs : list Resource.t) : bool :=
  forallb (fun r =>
             match Resource.busy_intervals r !! Task.name task with
             | Some _ => true
             | None => false
             end) rs.

(** [intervals_populated], as a check that runs. *)
Definition intervals_populatedb (tasks : list Task.t) : bool :=
  forallb (fun task =>
             negb (0 <? Task.work_amount task)
             || forallb (fun r =>
                           match Resource.busy_intervals r !! Task.name task with
                           | Some _ => true
                           | None => false
                           end)
                        (Task.required_resources task))
          tasks.

(** The options the constructor sets and the lines it prints. *)
Definition init_report (problem : P) (verbosity : bool) (max_time : Z)
    (parallel : bool) : list event :=
  (if verbosity then [set_option "verbose" (OInt 2)] else [])
  ++ [set_option "timeout" (OInt (max_time * 1000))]
  ++ (if verbosity then
        [print (match objectives problem with
                | [] => "Solver without optimization enabled"
                | _ :: _ => "Solver with optimization enabled"
                end)]
      else [])
  ++ (if parallel then
        [set_option "parallel.enable" (OBool true);
         set_option "parallel.threads.max" (OInt 4)]
      else []).

(** The staging part of the constructor, after the engine is created. *)
Definition stage_all (problem : P) : M P unit :=
  for_each (get_tasks problem) (stage_task problem) ;;
  for_each (_constraints problem) solver_add ;;
  for_each (get_resources problem)
    (fun ress => solver_add_all (Resource.get_assertions ress)) ;;
  process_work_amount ;;
  create_objectives.

(** Everything a session emits, in order. *)
Definition trace (calls : list (call * z3.engine)) (self : SchedulingSolver P)
    : list event :=
  (run calls self).2.

(** How many calls of a session returned true. *)
Definition successes (rs : list (exn + bool)) : nat :=
  length (List.filter (fun r => match r with inr true => true | _ => false end) rs).

(** The queries put to the engine, among the events of a trace. *)
Definition engine_queries (out : list event) : list event :=
  List.filter (fun ev =>
                 match ev with
                 | solver_check | solver_assertions | solver_reason_unknown
                 | solver_model | solver_statistics => true
                 | _ => false
                 end) out.

(** The same solver, with the verbosity switched. *)
Definition with_verbosity (verbosity : bool) (self : SchedulingSolver P)
    : SchedulingSolver P :=
  mk_self (_problem self) verbosity (_solver self) (current_solution self).

(** The calls that diversify one variable, one per engine behaviour. *)
Definition diversify (variable : string) (engines : list z3.engine)
    : list (call * z3.engine) :=
  map (fun engine => (FindAnotherSolution variable, engine)) engines.

End Specification.

(** ** A worked example *)

Module Demo.

Definition worker_1 : Resource.t :=
  Resource.mk "Worker1" 2
    {[ "task1" := (Int "task1_start", Int "task1_end") ]} [].

(* a worker nobody has been assigned to *)
Definition worker_2 : Resource.t := Resource.mk "Worker2" 1 ∅ [].

Definition task_1 : Task.t :=
  Task.mk "task1" (Int "task1_start") (Int "task1_end") false false 4 [worker_1]
    [Eq (Int "task1_end") (Add [Int "task1_start"; IntVal 3])].

Definition task_2 : Task.t :=
  Task.mk "task2" (Int "task2_start") (Int "task2_end") true true 0 []
    [Eq (Int "task2_end") (Add [Int "task2_start"; IntVal 1])].

(* work to do and nobody to do it *)
Definition stuck : Task.t :=
  Task.mk "stuck" (Int "stuck_start") (Int "stuck_end") false false 5 []
    [Eq (Int "stuck_end") (Add [Int "stuck_start"; IntVal 1])].

(* requires a worker that holds no busy interval for it *)
Definition orphan : Task.t :=
  Task.mk "orphan" (Int "orphan_start") (Int "orphan_end") false false 1 [worker_2] [].

Definition pb : Problem.t :=
  Problem.mk "Example" (IntVal 5) [LATEST] [task_1; task_2] [worker_1] [] None.

Definition pb_plain : Problem.t :=
  Problem.mk "Plain" (IntVal 5) [] [task_1; task_2] [worker_1] [] None.

Definition pb_stuck : Problem.t :=
  Problem.mk "Stuck" (IntVal 5) [] [task_1; stuck] [worker_1] [] None.

Definition pb_orphan : Problem.t :=
  Problem.mk "Orphan" (IntVal 5) [] [task_1; orphan] [worker_1; worker_2] [] None.

Definition schedule (s1 s2 mini : Z) : gmap string Z :=
  {[ "task1_start" := s1; "task1_end" := s1 + 3;
     "task2_start" := s2; "task2_end" := s2 + 1;
     "SmallestStartTime" := mini ]}.

Definition engine : z3.engine :=
  search [schedule 0 0 0; schedule 1 1 1; schedule 2 2 2; schedule 0 1 0].

(* an engine that always runs out of time *)
Definition out_of_time : z3.engine := search [].

Definition self0 : SchedulingSolver Problem.t :=
  mk_self pb false (init_solver pb) None.

(* [self0] after a first successful solve *)
Definition self1 : SchedulingSolver Problem.t :=
  final [(Solve, engine)] self0.

(* every objective at once *)
Definition pb_all : Problem.t :=
  Problem.mk "All" (Int "horizon") [MAKESPAN; FLOWTIME; EARLIEST; LATEST]
    [task_1; task_2] [worker_1] [Ge (Int "horizon") (Int "task1_end")] None.

(* an objective on task starts, and no task *)
Definition pb_empty : Problem.t :=
  Problem.mk "Empty" (IntVal 5) [LATEST] [] [] [] None.

End Demo.

(** ** Staging lemmas *)

Section Staging.

Context {P : Type} `{SchedulingProblem P}.

Lemma staged_nil (self : SchedulingSolver P) : staged self [] [] = self.
Proof.
  destruct self as [pb v [k fs ts] cur]; unfold staged; simpl.
  by rewrite !app_nil_r.
Qed.

Lemma staged_staged (self : SchedulingSolver P) fs ts fs' ts' :
  staged (staged self fs ts) fs' ts' = staged self (fs ++ fs') (ts ++ ts').
Proof. unfold staged; simpl. by rewrite !app_assoc. Qed.

Lemma bind_ok {A B} (m : M P A) (f : A -> M P B) self a self' out :
  m self = (inr a, self', out) ->
  (m ≫= f) self =
    let '(r, self'', out') := f a self' in (r, self'', out ++ out').
Proof. intros Hm. unfold mbind, M_bind. by rewrite Hm. Qed.

Lemma bind_raise {A B} (m : M P A) (f : A -> M P B) self e self' out :
  m self = (inl e, self', out) -> (m ≫= f) self = (inl e, self', out).
Proof. intros Hm. unfold mbind, M_bind. by rewrite Hm. Qed.

Lemma solver_add_staged f (self : SchedulingSolver P) :
  solver_add f self = (inr tt, staged self [f] [], []).
Proof.
  unfold solver_add, staged, z3.add; simpl. by rewrite app_nil_r.
Qed.

Lemma solver_minimize_staged t (self : SchedulingSolver P) :
  solver_minimize t self = (inr tt, staged self [] [minimize t], []).
Proof.
  unfold solver_minimize, staged, z3.add_target; simpl. by rewrite app_nil_r.
Qed.

Lemma solver_maximize_staged t (self : SchedulingSolver P) :
  solver_maximize t self = (inr tt, staged self [] [maximize t], []).
Proof.
  unfold solver_maximize, staged, z3.add_target; simpl. by rewrite app_nil_r.
Qed.

(** A loop whose body only stages assertions and targets stages their
    concatenation, in order. *)
Lemma for_each_staged {A} (body : A -> M P unit) (fs : A -> list formula)
    (ts : A -> list target) (xs : list A) self :
  (forall x self', x ∈ xs -> body x self' = (inr tt, staged self' (fs x) (ts x), [])) ->
  for_each xs body self =
    (inr tt, staged self (concat (map fs xs)) (concat (map ts xs)), []).
Proof.
  revert self. induction xs as [|x xs IH]; intros self Hbody; simpl.
  - by rewrite staged_nil.
  - erewrite bind_ok by (apply Hbody; left).
    rewrite IH by (intros; apply Hbody; by right).
    by rewrite staged_staged.
Qed.

Lemma concat_map_nil {A B} (xs : list A) :
  concat (map (fun _ => @nil B) xs) = [].
Proof. induction xs; simpl; congruence. Qed.

Lemma elem_of_concat_map {A B} (g : A -> list B) (xs : list A) x y :
  x ∈ xs -> y ∈ g x -> y ∈ concat (map g xs).
Proof.
  intros Hx Hy. induction xs as [|x' xs IH]; [by apply elem_of_nil in Hx|].
  simpl. apply elem_of_app. apply elem_of_cons in Hx as [->|Hx]; auto.
Qed.

Lemma concat_map_singleton {A} (xs : list A) :
  concat (map (fun x => [x]) xs) = xs.
Proof. induction xs; simpl; congruence. Qed.

Lemma solver_add_all_staged fs (self : SchedulingSolver P) :
  solver_add_all fs self = (inr tt, staged self fs [], []).
Proof.
  unfold solver_add_all.
  rewrite (for_each_staged _ (fun f => [f]) (fun _ => [])).
  - by rewrite concat_map_nil, concat_map_singleton.
  - intros. apply solver_add_staged.
Qed.

End Staging.

(** ** Work-amount constraints *)

Section WorkAmount.

Context {P : Type} `{SchedulingProblem P}.

Lemma work_contribution_ok task r (self : SchedulingSolver P) :
  is_Some (Resource.busy_intervals r !! Task.name task) ->
  work_contribution task r self = (inr (contribution_term task r), self, []).
Proof.
  intros [[low up] Hlook].
  unfold work_contribution, contribution_term, busy_interval.
  by rewrite Hlook.
Qed.

Lemma collect_contributions task rs (self : SchedulingSolver P) :
  (forall r, r ∈ rs -> is_Some (Resource.busy_intervals r !! Task.name task)) ->
  collect (work_contribution task) rs self
  = (inr (map (contribution_term task) rs), self, []).
Proof.
  induction rs as [|r rs IH]; intros Hpop; simpl; [done|].
  erewrite bind_ok by (apply work_contribution_ok, Hpop; left).
  erewrite bind_ok by (apply IH; intros; apply Hpop; by right).
  done.
Qed.

Lemma process_task_work_amount_staged task (self : SchedulingSolver P) :
  (0 < Task.work_amount task ->
   forall r, r ∈ Task.required_resources task ->
     is_Some (Resource.busy_intervals r !! Task.name task)) ->
  process_task_work_amount task self
  = (inr tt, staged self (work_amount_assertions task) [], []).
Proof.
  intros Hpop. unfold process_task_work_amount, work_amount_assertions.
  destruct (0 <? Task.work_amount task) eqn:Hw.
  - erewrite bind_ok by (apply collect_contributions, Hpop; lia).
    by rewrite solver_add_staged.
  - by rewrite staged_nil.
Qed.

Lemma eval_contributions m task rs :
  foldr (fun a acc => eval m a + acc) 0 (map (contribution_term task) rs)
  = foldr (fun r acc =>
             Resource.productivity r
             * (eval m (busy_interval r task).2 - eval m (busy_interval r task).1)
             + acc) 0 rs.
Proof. induction rs as [|r rs IH]; simpl; [done|]. by rewrite IH. Qed.

Lemma holds_ge_sum m ts n :
  holds m (ge_int (Sum ts) n)
  = (n <=? foldr (fun a acc => eval m a + acc) 0 ts).
Proof. by destruct ts. Qed.

Lemma work_amount_assertions_spec task :
  0 < Task.work_amount task ->
  exists f, work_amount_assertions task = [f] /\ work_amount_constraint task f.
Proof.
  intros Hw. unfold work_amount_assertions.
  destruct (Z.ltb_spec 0 (Task.work_amount task)); [|lia].
  eexists; split; [done|]. intros m.
  by rewrite holds_ge_sum, eval_contributions.
Qed.

Lemma work_amount_assertions_filter tasks :
  Forall2 work_amount_constraint
    (List.filter (fun task => 0 <? Task.work_amount task) tasks)
    (concat (map work_amount_assertions tasks)).
Proof.
  induction tasks as [|task tasks IH]; simpl; [constructor|].
  destruct (Z.ltb_spec 0 (Task.work_amount task)) as [Hw|Hw].
  - destruct (work_amount_assertions_spec task Hw) as (f & -> & Hf).
    simpl. by constructor.
  - unfold work_amount_assertions at 1.
    destruct (Z.ltb_spec 0 (Task.work_amount task)); [lia|]. done.
Qed.

Lemma process_work_amount_staged (self : SchedulingSolver P) :
  intervals_populated (get_tasks (_problem self)) ->
  process_work_amount self
  = (inr tt,
     staged self (concat (map work_amount_assertions (get_tasks (_problem self)))) [],
     []).
Proof.
  intros Hpop. unfold process_work_amount.
  erewrite bind_ok by reflexivity.
  rewrite (for_each_staged _ work_amount_assertions (fun _ => [])).
  - by rewrite concat_map_nil.
  - intros task self' Hin. apply process_task_work_amount_staged.
    intros Hw r Hr. by apply (Hpop task r).
Qed.

(** C1. [process_work_amount] stages, for the tasks of positive work amount
    taken in order, exactly one assertion each and nothing else; in every
    schedule that assertion holds exactly when the productivity-weighted
    sum of the busy-interval lengths of the task's required resources is at
    least the task's work amount.  Tasks of work amount 0 add nothing. *)
Theorem process_work_amount_constraints (self : SchedulingSolver P) :
  intervals_populated (get_tasks (_problem self)) ->
  exists cs,
    process_work_amount self = (inr tt, staged self cs [], []) /\
    Forall2 work_amount_constraint
      (List.filter (fun task => 0 <? Task.work_amount task)
                   (get_tasks (_problem self)))
      cs.
Proof.
  intros Hpop. eexists; split.
  - by apply process_work_amount_staged.
  - apply work_amount_assertions_filter.
Qed.

End WorkAmount.

(** ** What the constructor stages *)

Section Constructor.

Context {P : Type} `{SchedulingProblem P}.

Lemma stage_task_staged problem task (self : SchedulingSolver P) :
  stage_task problem task self
  = (inr tt, staged self (task_assertions problem task) [], []).
Proof.
  unfold stage_task, task_assertions.
  erewrite bind_ok by apply solver_add_all_staged.
  erewrite bind_ok by apply solver_add_staged.
  destruct (Task.lower_bounded task), (Task.upper_bounded task);
    unfold when; simpl negb; cbv iota;
    repeat (first [ erewrite bind_ok by apply solver_add_staged
                  | erewrite (bind_ok (mret tt)) by reflexivity
                  | rewrite solver_add_staged ]);
    cbv zeta; rewrite ?staged_staged; simpl; by rewrite ?app_nil_r.
Qed.

Lemma create_objective_staged problem tasks obj (self : SchedulingSolver P) :
  create_objective problem tasks obj self
  = (inr tt,
     staged self (objective_assertions tasks obj) (objective_targets problem obj),
     []).
Proof.
  destruct obj; simpl.
  - apply solver_minimize_staged.
  - erewrite bind_ok by apply solver_add_staged.
    by rewrite solver_minimize_staged, staged_staged.
  - erewrite bind_ok by apply solver_add_staged.
    erewrite bind_ok by
      (apply (for_each_staged _
                (fun tsk => [Ge (Int "GreatestStartTime") (Task.start tsk)])
                (fun _ => [])); intros; apply solver_add_staged).
    rewrite solver_minimize_staged, !staged_staged, concat_map_nil. simpl.
    do 3 f_equal. clear. induction tasks; simpl; congruence.
  - erewrite bind_ok by apply solver_add_staged.
    erewrite bind_ok by
      (apply (for_each_staged _
                (fun tsk => [Le (Int "SmallestStartTime") (Task.start tsk)])
                (fun _ => [])); intros; apply solver_add_staged).
    rewrite solver_maximize_staged, !staged_staged, concat_map_nil. simpl.
    do 3 f_equal. clear. induction tasks; simpl; congruence.
Qed.

Lemma create_objectives_staged (self : SchedulingSolver P) :
  create_objectives self
  = (inr tt,
     staged self
       (concat (map (objective_assertions (get_tasks (_problem self)))
                    (objectives (_problem self))))
       (concat (map (objective_targets (_problem self)) (objectives (_problem self)))),
     []).
Proof.
  unfold create_objectives. erewrite bind_ok by reflexivity.
  rewrite (for_each_staged _ (objective_assertions (get_tasks (_problem self)))
             (objective_targets (_problem self)));
    [done | intros; apply create_objective_staged].
Qed.

End Constructor.

Section ConstructorResult.

Context {P : Type} `{SchedulingProblem P}.

Lemma staging_ok (problem : P) verbosity :
  intervals_populated (get_tasks problem) ->
  (for_each (get_tasks problem) (stage_task problem) ;;
   for_each (_constraints problem) solver_add ;;
   for_each (get_resources problem)
     (fun ress => solver_add_all (Resource.get_assertions ress)) ;;
   process_work_amount ;;
   create_objectives)
    (mk_self problem verbosity (mk_solver (init_kind problem) [] []) None)
  = (inr tt, mk_self problem verbosity (init_solver problem) None, []).
Proof.
  intros Hpop.
  erewrite bind_ok by
    (apply (for_each_staged _ (task_assertions problem) (fun _ => []));
     intros; apply stage_task_staged).
  erewrite bind_ok by apply solver_add_all_staged.
  erewrite bind_ok by
    (apply (for_each_staged _ Resource.get_assertions (fun _ => []));
     intros; apply solver_add_all_staged).
  erewrite bind_ok by (apply process_work_amount_staged; exact Hpop).
  rewrite create_objectives_staged, !staged_staged, !concat_map_nil.
  unfold staged, init_solver, init_assertions, init_targets; simpl.
  by rewrite <- ?app_assoc.
Qed.

Lemma init_body_ok (problem : P) verbosity max_time parallel :
  intervals_populated (get_tasks problem) ->
  exists out,
    init_body problem verbosity max_time parallel (blank problem verbosity)
    = (inr tt, mk_self problem verbosity (init_solver problem) None, out).
Proof.
  intros Hpop. unfold init_body.
  pose proof (staging_ok problem verbosity Hpop) as Hstage.
  unfold init_kind in Hstage.
  destruct verbosity, parallel, (objectives problem) as [|obj objs] eqn:Hobjs;
    unfold when; simpl;
    repeat (first [ erewrite (bind_ok (emit _)) by reflexivity
                  | erewrite (bind_ok (set_solver _)) by reflexivity
                  | erewrite (bind_ok (mret tt)) by reflexivity
                  | erewrite (bind_ok (_ ;; _)) by reflexivity ]);
    unfold blank; simpl;
    rewrite Hstage; eexists; reflexivity.
Qed.

(** The constructor returns the solver that holds exactly the assertions
    and targets listed by [init_solver], and no retained solution. *)
Lemma init_ok (problem : P) verbosity max_time parallel :
  intervals_populated (get_tasks problem) ->
  exists out,
    __init__ problem verbosity max_time parallel
    = (inr (mk_self problem verbosity (init_solver problem) None), out).
Proof.
  intros Hpop.
  destruct (init_body_ok problem verbosity max_time parallel Hpop) as [out Hout].
  exists out. unfold __init__. by rewrite Hout.
Qed.

End ConstructorResult.

Section Checks.

Context {P : Type} `{SchedulingProblem P}.

Lemma intervals_populated_check tasks :
  intervals_populatedb tasks = true -> intervals_populated tasks.
Proof.
  unfold intervals_populatedb. rewrite forallb_forall.
  intros Hall task r Htask Hwork Hr.
  apply list_elem_of_In in Htask, Hr. specialize (Hall task Htask).
  destruct (Z.ltb_spec 0 (Task.work_amount task)); [|lia]. simpl in Hall.
  rewrite forallb_forall in Hall. specialize (Hall r Hr).
  by destruct (Resource.busy_intervals r !! Task.name task).
Qed.

Lemma search_sound candidates : z3.sound (search candidates).
Proof.
  intros s. unfold search.
  destruct (List.find _ candidates) as [m|] eqn:Hfind; simpl; [|done].
  intros _. apply find_some in Hfind as [_ Hall].
  rewrite forallb_forall in Hall. apply Forall_forall.
  intros f Hf. by apply Hall, list_elem_of_In.
Qed.

End Checks.

Section ConstructorRaises.

Context {P : Type} `{SchedulingProblem P}.

Lemma collect_raises task rs (self : SchedulingSolver P) :
  resources_populatedb task rs = false ->
  collect (work_contribution task) rs self
  = (inl (KeyError (Task.name task)), self, []).
Proof.
  induction rs as [|r rs IH]; simpl; [done|].
  destruct (Resource.busy_intervals r !! Task.name task) as [[low up]|] eqn:Hlook;
    simpl; intros Hrest.
  - erewrite bind_ok by (apply work_contribution_ok; by rewrite Hlook).
    by erewrite bind_raise by (apply IH, Hrest).
  - erewrite bind_raise; [done|]. unfold work_contribution. by rewrite Hlook.
Qed.

Lemma process_tasks_raise tasks (self : SchedulingSolver P) :
  intervals_populatedb tasks = false ->
  exists key self',
    for_each tasks process_task_work_amount self = (inl (KeyError key), self', []).
Proof.
  revert self. induction tasks as [|task tasks IH]; intros self; simpl; [done|].
  destruct (0 <? Task.work_amount task) eqn:Hwork; simpl.
  - fold (resources_populatedb task (Task.required_resources task)).
    destruct (resources_populatedb task (Task.required_resources task)) eqn:Hrs;
      simpl; intros Hrest.
    + erewrite bind_ok.
      2:{ apply process_task_work_amount_staged. intros _ r Hr.
          unfold resources_populatedb in Hrs. rewrite forallb_forall in Hrs.
          apply list_elem_of_In in Hr. specialize (Hrs r Hr).
          by destruct (Resource.busy_intervals r !! Task.name task). }
      destruct (IH (staged self (work_amount_assertions task) []) Hrest)
        as (key & self' & ->). eauto.
    + exists (Task.name task), self. erewrite bind_raise; [done|].
      unfold process_task_work_amount. rewrite Hwork.
      by erewrite bind_raise by (by apply collect_raises).
  - intros Hrest. erewrite bind_ok.
    2:{ apply process_task_work_amount_staged. intros Hpos.
        apply Z.ltb_ge in Hwork. lia. }
    destruct (IH (staged self (work_amount_assertions task) []) Hrest)
      as (key & self' & ->). eauto.
Qed.

Lemma staging_raises (problem : P) verbosity :
  intervals_populatedb (get_tasks problem) = false ->
  exists key self',
    (for_each (get_tasks problem) (stage_task problem) ;;
     for_each (_constraints problem) solver_add ;;
     for_each (get_resources problem)
       (fun ress => solver_add_all (Resource.get_assertions ress)) ;;
     process_work_amount ;;
     create_objectives)
      (mk_self problem verbosity (mk_solver (init_kind problem) [] []) None)
    = (inl (KeyError key), self', []).
Proof.
  intros Hbad.
  erewrite bind_ok by
    (apply (for_each_staged _ (task_assertions problem) (fun _ => []));
     intros; apply stage_task_staged).
  erewrite bind_ok by apply solver_add_all_staged.
  erewrite bind_ok by
    (apply (for_each_staged _ Resource.get_assertions (fun _ => []));
     intros; apply solver_add_all_staged).
  match goal with
  | |- context [ (process_work_amount ;; create_objectives) ?s ] =>
      destruct (process_tasks_raise (get_tasks problem) s Hbad) as (key & self' & Hraise)
  end.
  exists key, self'.
  erewrite bind_raise; [done|].
  unfold process_work_amount. erewrite bind_ok by reflexivity.
  simpl. simpl in Hraise. by rewrite Hraise.
Qed.

(** When a busy interval is missing, the constructor raises KeyError and
    no solver comes into being. *)
Lemma init_raises (problem : P) verbosity max_time parallel :
  intervals_populatedb (get_tasks problem) = false ->
  exists key out,
    __init__ problem verbosity max_time parallel = (inl (KeyError key), out).
Proof.
  intros Hbad.
  destruct (staging_raises problem verbosity Hbad) as (key & self' & Hraise).
  exists key. unfold __init__, init_body. unfold init_kind in Hraise.
  destruct verbosity, parallel, (objectives problem) as [|obj objs] eqn:Hobjs;
    unfold when; simpl;
    repeat (first [ erewrite (bind_ok (emit _)) by reflexivity
                  | erewrite (bind_ok (set_solver _)) by reflexivity
                  | erewrite (bind_ok (mret tt)) by reflexivity
                  | erewrite (bind_ok (_ ;; _)) by reflexivity ]);
    unfold blank; simpl;
    rewrite Hraise; eexists; reflexivity.
Qed.

(** The constructor returns a solver exactly when the busy intervals it
    looks up are there. *)
Lemma init_returns_iff (problem : P) verbosity max_time parallel :
  (exists self out, __init__ problem verbosity max_time parallel = (inr self, out))
  <-> intervals_populated (get_tasks problem).
Proof.
  split.
  - intros (self & out & Hinit).
    destruct (intervals_populatedb (get_tasks problem)) eqn:Hcheck;
      [by apply intervals_populated_check|].
    destruct (init_raises problem verbosity max_time parallel Hcheck)
      as (key & out' & Hraise).
    congruence.
  - intros Hpop.
    destruct (init_ok problem verbosity max_time parallel Hpop) as [out Hinit]. eauto.
Qed.

End ConstructorRaises.

(** ** check_sat, solve, find_another_solution *)

Section Solving.

Context {P : Type} `{SchedulingProblem P}.

Lemma for_each_emit {A} (body : A -> M P unit) (f : A -> event) (xs : list A)
    (self : SchedulingSolver P) :
  (forall x, body x = emit (f x)) ->
  for_each xs body self = (inr tt, self, map f xs).
Proof.
  intros Hbody. induction xs as [|x xs IH]; simpl; [done|].
  rewrite Hbody. erewrite bind_ok by reflexivity. by rewrite IH.
Qed.

Lemma check_sat_run engine (self : SchedulingSolver P) :
  check_sat engine self
  = (inr (is_sat (check (engine (_solver self)))), self, check_sat_report engine self).
Proof.
  unfold check_sat, check_sat_report.
  erewrite bind_ok by reflexivity.
  erewrite bind_ok by reflexivity.
  erewrite bind_ok by reflexivity.
  assert (Hdump :
    when (_verbosity self)
      (emit solver_assertions ;;
       for_each (assertions (_solver self))
         (fun assertion => emit (print_assertion assertion))) self
    = (inr tt, self,
       if _verbosity self then
         solver_assertions :: map print_assertion (assertions (_solver self))
       else [])).
  { destruct (_verbosity self); unfold when; [|done].
    erewrite bind_ok by reflexivity.
    by rewrite (for_each_emit _ print_assertion). }
  erewrite bind_ok by exact Hdump.
  destruct (check (engine (_solver self))); simpl; by rewrite ?app_nil_r.
Qed.

Lemma solve_run engine (self : SchedulingSolver P) :
  solve engine self
  = if is_sat (check (engine (_solver self))) then
      (inr true, solved engine self,
       check_sat_report engine self ++ solve_report engine self)
    else (inr false, self, check_sat_report engine self).
Proof.
  unfold solve. erewrite bind_ok by apply check_sat_run.
  destruct (is_sat (check (engine (_solver self)))); simpl; [|by rewrite app_nil_r].
  erewrite bind_ok by reflexivity.
  erewrite bind_ok by reflexivity.
  assert (Hdump : forall (k : M P unit),
    when (_verbosity self)
      (emit (print "Solver satistics:") ;;
       emit solver_statistics ;;
       for_each (statistics (engine (_solver self)))
         (fun '(key, value) => emit (print_statistic key value)) ;;
       emit (print "Solution:") ;;
       for_each (map_to_list (model (engine (_solver self))))
         (fun '(var_name, var_value) => emit (print_binding var_name var_value))) self
    = (inr tt, self,
       if _verbosity self then
        [print "Solver satistics:"; solver_statistics]
        ++ map (fun '(key, value) => print_statistic key value)
               (statistics (engine (_solver self)))
        ++ [print "Solution:"]
        ++ map (fun '(var_name, var_value) => print_binding var_name var_value)
               (map_to_list (model (engine (_solver self))))
       else [])).
  { intros _. destruct (_verbosity self); simpl; [|done].
    erewrite bind_ok by reflexivity.
    erewrite bind_ok by reflexivity.
    erewrite bind_ok by
      (apply (for_each_emit _ (fun '(key, value) => print_statistic key value));
       by intros [??]).
    erewrite bind_ok by reflexivity.
    rewrite (for_each_emit _
               (fun '(var_name, var_value) => print_binding var_name var_value))
      by (by intros [??]).
    done. }
  erewrite bind_ok by (apply Hdump; exact (mret tt)).
  erewrite bind_ok by reflexivity.
  erewrite bind_ok by reflexivity.
  erewrite bind_ok by reflexivity.
  erewrite bind_ok by reflexivity.
  unfold solved, solve_report; simpl.
  by rewrite ?app_nil_r.
Qed.

End Solving.

Section Traces.

Context {P : Type} `{SchedulingProblem P}.

Lemma model_retrievals_app out out' :
  model_retrievals (out ++ out') = (model_retrievals out + model_retrievals out')%nat.
Proof. unfold model_retrievals. by rewrite List.filter_app, length_app. Qed.

Lemma set_solution_calls_app out out' :
  set_solution_calls (out ++ out') = set_solution_calls out ++ set_solution_calls out'.
Proof. apply omap_app. Qed.

Lemma quiet_model_retrievals out :
  Forall quiet out -> model_retrievals out = 0%nat.
Proof.
  induction 1 as [|ev out Hev _ IH]; [done|].
  unfold model_retrievals in *. by destruct ev.
Qed.

Lemma quiet_set_solution_calls out :
  Forall quiet out -> set_solution_calls out = [].
Proof.
  induction 1 as [|ev out Hev _ IH]; [done|].
  unfold set_solution_calls in *. by destruct ev.
Qed.

Lemma quiet_map {A} (f : A -> event) xs :
  (forall x, quiet (f x)) -> Forall quiet (map f xs).
Proof. intros Hf. induction xs; constructor; auto. Qed.

Lemma check_sat_report_quiet engine (self : SchedulingSolver P) :
  Forall quiet (check_sat_report engine self).
Proof.
  unfold check_sat_report. repeat apply Forall_app_2.
  - by repeat constructor.
  - destruct (_verbosity self); [|constructor].
    constructor; [done | by apply quiet_map].
  - destruct (check (engine (_solver self))); by repeat constructor.
Qed.

Lemma solve_report_retrievals engine (self : SchedulingSolver P) :
  model_retrievals (solve_report engine self) = 1%nat.
Proof.
  unfold solve_report. rewrite !model_retrievals_app.
  rewrite (quiet_model_retrievals (if _verbosity self then _ else _)); [done|].
  destruct (_verbosity self); [|constructor].
  repeat apply Forall_app_2; try by repeat constructor.
  - apply quiet_map. by intros [??].
  - apply quiet_map. by intros [??].
Qed.

Lemma solve_report_set_solution engine (self : SchedulingSolver P) :
  set_solution_calls (solve_report engine self) = [model (engine (_solver self))].
Proof.
  unfold solve_report. rewrite !set_solution_calls_app.
  rewrite (quiet_set_solution_calls (if _verbosity self then _ else _)); [done|].
  destruct (_verbosity self); [|constructor].
  repeat apply Forall_app_2; try by repeat constructor.
  - apply quiet_map. by intros [??].
  - apply quiet_map. by intros [??].
Qed.

Lemma find_another_solution_run engine variable (self : SchedulingSolver P) :
  find_another_solution engine variable self
  = match current_solution self with
    | None =>
        (inr false, self, [warn "No current solution. First call the solve() method."])
    | Some solution =>
        match solution !! variable with
        | None => (inl (AttributeError "as_long"), self, [])
        | Some value =>
            solve engine (staged self [Ne (Int variable) (IntVal value)] [])
        end
    end.
Proof.
  unfold find_another_solution. erewrite bind_ok by reflexivity.
  destruct (current_solution self) as [solution|]; [|done].
  destruct (solution !! variable) as [value|]; [|done].
  erewrite bind_ok by apply solver_add_staged.
  by destruct (solve engine _) as [[r self'] out].
Qed.

End Traces.

Section Orchestration.

Context {P : Type} `{SchedulingProblem P}.

(** C4. [check_sat] never raises and leaves the solver as it is.  It
    returns false and reports that no solution exists when the engine
    answers unsat, returns false and reports the engine's reason when the
    engine answers unknown, and returns true otherwise. *)
Theorem check_sat_verdict engine (self : SchedulingSolver P) :
  exists b out,
    check_sat engine self = (inr b, self, out) /\
    match check (engine (_solver self)) with
    | unsat =>
        b = false /\
        print ("No solution exists for problem " +:+ name (_problem self) +:+ ".")
          ∈ out
    | unknown =>
        b = false /\
        print ("No solution can be found for problem " +:+ name (_problem self)
               +:+ " because: " +:+ reason_unknown (engine (_solver self)))
          ∈ out
    | sat => b = true
    end.
Proof.
  eexists _, _. split; [apply check_sat_run|].
  unfold check_sat_report.
  destruct (check (engine (_solver self))); simpl; [done| |]; split; try done.
  - do 2 right. apply elem_of_app; right. by left.
  - do 2 right. apply elem_of_app; right. right. by left.
Qed.

(** C5. [solve] never raises.  It returns true exactly when it retrieved a
    model from the engine (once); it has then handed that model to the
    problem's [set_solution] exactly once and retained the same model as
    [current_solution].  It returns what [check_sat] returns: when that is
    false, no model is retrieved, [set_solution] is not called and the
    solver is left as it was. *)
Theorem solve_model engine (self : SchedulingSolver P) :
  exists b self' out,
    solve engine self = (inr b, self', out) /\
    (check_sat engine self).1.1 = inr b /\
    model_retrievals out = (if b then 1 else 0)%nat /\
    if b then
      set_solution_calls out = [model (engine (_solver self))] /\
      _problem self' = set_solution (_problem self) (model (engine (_solver self))) /\
      current_solution self' = Some (model (engine (_solver self)))
    else
      set_solution_calls out = [] /\ self' = self.
Proof.
  rewrite solve_run, check_sat_run. cbn [fst snd].
  pose proof (check_sat_report_quiet engine self) as Hquiet.
  destruct (is_sat (check (engine (_solver self)))).
  - eexists true, _, _. split; [done|]. split; [done|].
    rewrite model_retrievals_app, set_solution_calls_app.
    rewrite quiet_model_retrievals, quiet_set_solution_calls by done.
    by rewrite solve_report_retrievals, solve_report_set_solution.
  - eexists false, _, _. split; [done|]. split; [done|].
    by rewrite quiet_model_retrievals, quiet_set_solution_calls.
Qed.

(** C6. While no solution is retained, [find_another_solution] issues a
    warning, returns false and leaves the solver untouched: nothing is
    staged into the engine and [current_solution] stays unset. *)
Theorem find_another_solution_unsolved engine variable (self : SchedulingSolver P) :
  current_solution self = None ->
  find_another_solution engine variable self
  = (inr false, self, [warn "No current solution. First call the solve() method."]).
Proof. intros Hnone. by rewrite find_another_solution_run, Hnone. Qed.

Lemma solve_false engine (self self' : SchedulingSolver P) r out :
  solve engine self = (r, self', out) -> r <> inr true -> self' = self.
Proof.
  rewrite solve_run.
  destruct (is_sat _); intros [= <- <- <-] Hr; [by destruct Hr | done].
Qed.

Lemma perform_not_true c engine (self self' : SchedulingSolver P) r out :
  perform c engine self = (r, self', out) ->
  r <> inr true ->
  current_solution self' = current_solution self /\
  _problem self' = _problem self /\
  (c = Solve -> self' = self).
Proof.
  destruct c as [|variable]; simpl.
  - intros Hrun Hr. by rewrite (solve_false _ _ _ _ _ Hrun Hr).
  - rewrite find_another_solution_run.
    destruct (current_solution self) as [solution|] eqn:Hcur.
    + destruct (solution !! variable) as [value|].
      * intros Hrun Hr. rewrite (solve_false _ _ _ _ _ Hrun Hr). by simpl.
      * by intros [= <- <- <-] _.
    + by intros [= <- <- <-] _.
Qed.

(** C10. A call that does not return true (a failed [solve], and likewise
    a failed [find_another_solution]) leaves the retained
    [current_solution] and the problem, with the solution stored in it, as
    they were; a failed [solve] changes nothing at all. *)
Theorem failure_keeps_solution c engine (self self' : SchedulingSolver P) r out :
  perform c engine self = (r, self', out) ->
  r <> inr true ->
  current_solution self' = current_solution self /\
  _problem self' = _problem self /\
  (c = Solve -> self' = self).
Proof. apply perform_not_true. Qed.

End Orchestration.

(** ** Sessions *)

Section Sessions.

Context {P : Type} `{SchedulingProblem P}.

Lemma run_cons c engine rest (self : SchedulingSolver P) :
  run ((c, engine) :: rest) self
  = let '(r, self', out) := perform c engine self in
    let '(rs, self'', out') := run rest self' in
    (r :: rs, self'', out ++ out').
Proof. done. Qed.

Lemma final_cons c engine rest (self : SchedulingSolver P) :
  final ((c, engine) :: rest) self = final rest (perform c engine self).1.2.
Proof.
  unfold final. rewrite run_cons.
  destruct (perform c engine self) as [[r self'] out]; simpl.
  by destruct (run rest self') as [[rs self''] out'].
Qed.

Lemma results_cons c engine rest (self : SchedulingSolver P) :
  results ((c, engine) :: rest) self
  = (perform c engine self).1.1 :: results rest (perform c engine self).1.2.
Proof.
  unfold results. rewrite run_cons.
  destruct (perform c engine self) as [[r self'] out]; simpl.
  by destruct (run rest self') as [[rs self''] out'].
Qed.

Lemma final_app calls calls' (self : SchedulingSolver P) :
  final (calls ++ calls') self = final calls' (final calls self).
Proof.
  revert self. induction calls as [|[c engine] calls IH]; intros self; [done|].
  simpl. by rewrite !final_cons, IH.
Qed.

Lemma results_app calls calls' (self : SchedulingSolver P) :
  results (calls ++ calls') self
  = results calls self ++ results calls' (final calls self).
Proof.
  revert self. induction calls as [|[c engine] calls IH]; intros self; [done|].
  simpl. by rewrite !results_cons, IH, final_cons.
Qed.

Lemma results_snoc calls c engine (self : SchedulingSolver P) :
  results (calls ++ [(c, engine)]) self
  = results calls self ++ [(perform c engine (final calls self)).1.1].
Proof. by rewrite results_app, results_cons. Qed.

Lemma final_snoc calls c engine (self : SchedulingSolver P) :
  final (calls ++ [(c, engine)]) self = (perform c engine (final calls self)).1.2.
Proof. by rewrite final_app, final_cons. Qed.

(** As long as no call has returned true, no solution is retained. *)
Lemma unsolved_session calls (self : SchedulingSolver P) :
  current_solution self = None ->
  Forall (fun r => r <> inr true) (results calls self) ->
  current_solution (final calls self) = None.
Proof.
  revert self. induction calls as [|[c engine] calls IH]; intros self Hnone; [done|].
  rewrite results_cons, final_cons. intros Hall.
  apply Forall_cons in Hall as [Hr Hall]. apply IH; [|done].
  destruct (perform c engine self) as [[r self'] out] eqn:Hrun. simpl in *.
  destruct (perform_not_true _ _ _ _ _ _ Hrun Hr) as (-> & _). done.
Qed.

(** Nothing is ever retracted from the engine. *)
Lemma perform_assertions c engine (self : SchedulingSolver P) f :
  f ∈ assertions (_solver self) ->
  f ∈ assertions (_solver (perform c engine self).1.2).
Proof.
  intros Hf. destruct c as [|variable]; simpl.
  - rewrite solve_run. by destruct (is_sat _).
  - rewrite find_another_solution_run.
    destruct (current_solution self) as [solution|]; [|done].
    destruct (solution !! variable) as [value|]; [|done].
    rewrite solve_run. destruct (is_sat _); simpl; apply elem_of_app; by left.
Qed.

Lemma final_assertions calls (self : SchedulingSolver P) f :
  f ∈ assertions (_solver self) ->
  f ∈ assertions (_solver (final calls self)).
Proof.
  revert self. induction calls as [|[c engine] calls IH]; intros self Hf; [done|].
  rewrite final_cons. by apply IH, perform_assertions.
Qed.

(** The value read by [find_another_solution] is excluded from then on,
    whatever the re-solve answers. *)
Lemma find_another_solution_excludes engine variable (self : SchedulingSolver P)
    solution value :
  current_solution self = Some solution ->
  solution !! variable = Some value ->
  Ne (Int variable) (IntVal value)
    ∈ assertions (_solver (find_another_solution engine variable self).1.2).
Proof.
  intros Hcur Hval. rewrite find_another_solution_run, Hcur, Hval, solve_run.
  destruct (is_sat _); simpl; apply elem_of_app; right; by left.
Qed.

Lemma solve_true engine (self self' : SchedulingSolver P) out :
  solve engine self = (inr true, self', out) ->
  z3.sound engine ->
  exists m, current_solution self' = Some m /\
    _solver self' = _solver self /\
    Forall (fun f => holds m f = true) (assertions (_solver self)).
Proof.
  rewrite solve_run. intros Hrun Hsound.
  destruct (check (engine (_solver self))) eqn:Hcheck; simpl in Hrun; try done.
  injection Hrun as <- <-. eexists; split; [done|]. split; [done|].
  by apply Hsound.
Qed.

(** The model retained by a call that returns true satisfies everything
    staged at that point. *)
Lemma perform_true c engine (self self' : SchedulingSolver P) out :
  perform c engine self = (inr true, self', out) ->
  z3.sound engine ->
  exists m, current_solution self' = Some m /\
    Forall (fun f => holds m f = true) (assertions (_solver self')).
Proof.
  destruct c as [|variable]; simpl.
  - intros Hrun Hsound.
    destruct (solve_true _ _ _ _ Hrun Hsound) as (m & Hcur & -> & Hm). eauto.
  - rewrite find_another_solution_run.
    destruct (current_solution self) as [solution|]; [|done].
    destruct (solution !! variable) as [value|]; [|done].
    intros Hrun Hsound.
    destruct (solve_true _ _ _ _ Hrun Hsound) as (m & Hcur & -> & Hm). eauto.
Qed.

Lemma final_true calls (self : SchedulingSolver P) :
  sound_calls calls ->
  last (results calls self) = Some (inr true) ->
  exists m, current_solution (final calls self) = Some m /\
    Forall (fun f => holds m f = true) (assertions (_solver (final calls self))).
Proof.
  destruct calls as [|[c engine] calls _] using rev_ind; [done|].
  intros Hsound Hlast. unfold sound_calls in Hsound.
  rewrite Forall_app, Forall_singleton in Hsound. destruct Hsound as [_ Hsound].
  rewrite results_snoc, last_snoc in Hlast. rewrite final_snoc.
  injection Hlast as Hlast.
  destruct (perform c engine (final calls self)) as [[r self'] out] eqn:Hrun.
  simpl in *. subst r. by eapply perform_true.
Qed.

(** A value read by [find_another_solution] is absent from the model of
    every call that returns true from then on. *)
Lemma exclusion_persists before engine variable after
    (self : SchedulingSolver P) solution value :
  let calls := before ++ (FindAnotherSolution variable, engine) :: after in
  sound_calls calls ->
  current_solution (final before self) = Some solution ->
  solution !! variable = Some value ->
  last (results calls self) = Some (inr true) ->
  exists solution',
    current_solution (final calls self) = Some solution' /\
    solution' !! variable <> Some value.
Proof.
  intros calls Hsound Hcur Hval Hlast.
  destruct (final_true calls self Hsound Hlast) as (m & Hm & Hall).
  exists m; split; [done|]. intros Hbad.
  assert (Hin : Ne (Int variable) (IntVal value)
                  ∈ assertions (_solver (final calls self))).
  { unfold calls. rewrite final_app, final_cons. apply final_assertions.
    by eapply find_another_solution_excludes. }
  rewrite Forall_forall in Hall. specialize (Hall _ Hin).
  simpl in Hall. unfold interp in Hall. rewrite Hbad in Hall. simpl in Hall.
  rewrite Z.eqb_refl in Hall. done.
Qed.

(** C2, as amended. In any session with a sound engine, once
    [find_another_solution] has been called on a variable while the retained
    model gave it some value, no call that returns true, be it that call
    itself or any later one, retains a model that gives the variable this
    value again: the exclusions accumulate. *)
Theorem excluded_values_never_return before engine variable after
    (self : SchedulingSolver P) solution value :
  let calls := before ++ (FindAnotherSolution variable, engine) :: after in
  sound_calls calls ->
  current_solution (final before self) = Some solution ->
  solution !! variable = Some value ->
  last (results calls self) = Some (inr true) ->
  exists solution',
    current_solution (final calls self) = Some solution' /\
    solution' !! variable <> Some value.
Proof. apply exclusion_persists. Qed.

(** In a session that, after a first [solve], only diversifies one variable,
    every model retained along the way is read by the next call; so the
    model of a call that returns true differs on the variable from all the
    models retained before it. *)
Corollary diversification_chain engine0 engines1 engine engines2 variable
    (self : SchedulingSolver P) solution value :
  let again := fun e : z3.engine => (FindAnotherSolution variable, e) in
  let before := (Solve, engine0) :: map again engines1 in
  let calls := before ++ again engine :: map again engines2 in
  sound_calls calls ->
  current_solution (final before self) = Some solution ->
  solution !! variable = Some value ->
  last (results calls self) = Some (inr true) ->
  exists solution',
    current_solution (final calls self) = Some solution' /\
    solution' !! variable <> Some value.
Proof. intros again before calls. apply exclusion_persists. Qed.

End Sessions.

(** ** The constructed solver *)

Section Constructed.

Context {P : Type} `{SchedulingProblem P}.

Lemma task_assertions_staged (problem : P) task f :
  task ∈ get_tasks problem ->
  f ∈ task_assertions problem task ->
  f ∈ init_assertions problem.
Proof.
  intros Htask Hf. unfold init_assertions. apply elem_of_app; left.
  by apply (elem_of_concat_map _ _ task).
Qed.

Lemma work_amount_assertions_staged_in (problem : P) task f :
  task ∈ get_tasks problem ->
  f ∈ work_amount_assertions task ->
  f ∈ init_assertions problem.
Proof.
  intros Htask Hf. unfold init_assertions.
  do 3 (apply elem_of_app; right). apply elem_of_app; left.
  by apply (elem_of_concat_map _ _ task).
Qed.

Lemma objective_assertions_staged_in (problem : P) obj f :
  obj ∈ objectives problem ->
  f ∈ objective_assertions (get_tasks problem) obj ->
  f ∈ init_assertions problem.
Proof.
  intros Hobj Hf. unfold init_assertions.
  do 4 (apply elem_of_app; right).
  by apply (elem_of_concat_map _ _ obj).
Qed.

Lemma objective_targets_staged_in (problem : P) obj t :
  obj ∈ objectives problem ->
  t ∈ objective_targets problem obj ->
  t ∈ init_targets problem.
Proof.
  intros Hobj Ht. unfold init_targets.
  by apply (elem_of_concat_map _ _ obj).
Qed.

Lemma holds_Or_map {A} m (g : A -> formula) (xs : list A) :
  holds m (Or (map g xs)) = true <-> exists x, x ∈ xs /\ holds m (g x) = true.
Proof.
  simpl. induction xs as [|x xs IH]; simpl.
  - split; [done|]. intros (x & Hx & _). by apply elem_of_nil in Hx.
  - rewrite orb_true_iff, IH. split.
    + intros [Hx|(y & Hy & Hg)]; [exists x | exists y]; split; try done.
      * by left.
      * by right.
    + intros (y & Hy & Hg). apply elem_of_cons in Hy as [->|Hy]; eauto.
Qed.

(** C8. The engine is created in optimisation mode exactly when the
    problem lists at least one objective; with no objective it is the
    plain QF_LIA decision procedure, and nothing is staged for
    optimisation. *)
Theorem engine_mode (problem : P) verbosity max_time parallel :
  intervals_populated (get_tasks problem) ->
  exists self out,
    __init__ problem verbosity max_time parallel = (inr self, out) /\
    (objectives problem <> [] -> kind (_solver self) = Optimize) /\
    (objectives problem = [] ->
       kind (_solver self) = SolverFor_QF_LIA /\ targets (_solver self) = []).
Proof.
  intros Hpop.
  destruct (init_ok problem verbosity max_time parallel Hpop) as [out Hinit].
  eexists _, out. split; [exact Hinit|]. simpl.
  unfold init_kind, init_targets. split.
  - by destruct (objectives problem).
  - by intros ->.
Qed.

(** C7. When LATEST is among the objectives, the constructed solver is an
    optimising one that holds, for the single auxiliary integer variable
    SmallestStartTime, the disjunction that it equals the start of some
    task, for every task the assertion that it is at most the task's
    start, and the target of maximising it.  In any model of the staged
    assertions its value is therefore the least task start. *)
Theorem latest_objective (problem : P) verbosity max_time parallel :
  intervals_populated (get_tasks problem) ->
  LATEST ∈ objectives problem ->
  let mini := Int "SmallestStartTime" in
  exists self out,
    __init__ problem verbosity max_time parallel = (inr self, out) /\
    kind (_solver self) = Optimize /\
    Or (map (fun task => Eq mini (Task.start task)) (get_tasks problem))
      ∈ assertions (_solver self) /\
    (forall task, task ∈ get_tasks problem ->
       Le mini (Task.start task) ∈ assertions (_solver self)) /\
    maximize mini ∈ targets (_solver self) /\
    (forall m, Forall (fun f => holds m f = true) (assertions (_solver self)) ->
       (exists task, task ∈ get_tasks problem /\
          interp m "SmallestStartTime" = eval m (Task.start task)) /\
       (forall task, task ∈ get_tasks problem ->
          interp m "SmallestStartTime" <= eval m (Task.start task))).
Proof.
  intros Hpop Hlatest mini.
  destruct (init_ok problem verbosity max_time parallel Hpop) as [out Hinit].
  eexists _, out. split; [exact Hinit|]. simpl.
  assert (Hor : Or (map (fun task => Eq mini (Task.start task)) (get_tasks problem))
                  ∈ init_assertions problem).
  { eapply objective_assertions_staged_in; [exact Hlatest|]. by left. }
  assert (Hle : forall task, task ∈ get_tasks problem ->
                  Le mini (Task.start task) ∈ init_assertions problem).
  { intros task Htask.
    eapply objective_assertions_staged_in; [exact Hlatest|]. right.
    by apply (list_elem_of_fmap_2 (fun task => Le mini (Task.start task))). }
  split; [|split; [exact Hor|split; [exact Hle|split]]].
  - unfold init_kind. destruct (objectives problem); [|done].
    by apply elem_of_nil in Hlatest.
  - eapply objective_targets_staged_in; [exact Hlatest|]. by left.
  - intros m Hm. rewrite Forall_forall in Hm. split.
    + apply Hm in Hor. apply holds_Or_map in Hor as (task & Htask & Heq).
      exists task. split; [done|]. simpl in Heq. lia.
    + intros task Htask. specialize (Hm _ (Hle task Htask)). simpl in Hm. lia.
Qed.

End Constructed.

Section Bounds.

Context {P : Type} `{SchedulingProblem P}.





(** C3. A task that asks for work and has no required resource makes the
    work-amount step stage the constant false, without raising; the
    constructor returns as usual, and [solve] on the constructed solver
    then returns false for every sound engine, leaving the solver as it
    is. *)
Theorem no_resource_is_unsat (problem : P) verbosity max_time parallel task :
  intervals_populated (get_tasks problem) ->
  task ∈ get_tasks problem ->
  0 < Task.work_amount task ->
  Task.required_resources task = [] ->
  (forall self0 : SchedulingSolver P,
     process_task_work_amount task self0
     = (inr tt, staged self0 [BoolVal false] [], [])) /\
  exists self out,
    __init__ problem verbosity max_time parallel = (inr self, out) /\
    BoolVal false ∈ assertions (_solver self) /\
    forall engine, z3.sound engine ->
      exists out', solve engine self = (inr false, self, out').
Proof.
  intros Hpop Htask Hwork Hnone.
  assert (Hfalse : work_amount_assertions task = [BoolVal false]).
  { unfold work_amount_assertions. rewrite Hnone. simpl.
    destruct (Z.ltb_spec 0 (Task.work_amount task)); [|lia].
    by destruct (Z.leb_spec (Task.work_amount task) 0); [lia|]. }
  split.
  - intros self0. rewrite process_task_work_amount_staged, Hfalse; [done|].
    intros _ r Hr. rewrite Hnone in Hr. by apply elem_of_nil in Hr.
  - destruct (init_ok problem verbosity max_time parallel Hpop) as [out Hinit].
    eexists _, out. split; [exact Hinit|].
    assert (Hin : BoolVal false ∈ init_assertions problem).
    { apply (work_amount_assertions_staged_in problem task); [done|].
      rewrite Hfalse. by left. }
    split; [exact Hin|].
    intros engine Hsound. rewrite solve_run. simpl.
    destruct (check (engine (init_solver problem))) eqn:Hcheck; simpl; eauto.
    apply Hsound in Hcheck. rewrite Forall_forall in Hcheck.
    by specialize (Hcheck _ Hin).
Qed.

End Bounds.


(** The constructor on the example, with and without a KeyError. *)
Example init_example :
  __init__ Demo.pb false 60 false
  = (inr Demo.self0, [set_option "timeout" (OInt 60000)]).
Proof. vm_compute. reflexivity. Qed.

Example init_orphan :
  __init__ Demo.pb_orphan false 60 false
  = (inl (KeyError "orphan"), [set_option "timeout" (OInt 60000)]).
Proof. vm_compute. reflexivity. Qed.

(** What is excluded is the value that [find_another_solution] read for the
    variable it was called on.  Here the first solve gives task1 the start 0;
    diversifying task2 moves task1 to 1; diversifying task1 then excludes 1
    only, and the start 0 of the first schedule, never read for task1, is
    free to come back. *)
Example exclusion_is_per_call :
  let calls := [(Solve, Demo.engine);
                (FindAnotherSolution "task2_start", Demo.engine);
                (FindAnotherSolution "task1_start", search [Demo.schedule 0 1 0])] in
  results calls Demo.self0 = [inr true; inr true; inr true] /\
  current_solution (final (take 1 calls) Demo.self0) = Some (Demo.schedule 0 0 0) /\
  current_solution (final (take 2 calls) Demo.self0) = Some (Demo.schedule 1 1 1) /\
  current_solution (final calls Demo.self0) = Some (Demo.schedule 0 1 0).
Proof. vm_compute. repeat split; reflexivity. Qed.

(** A session on the example: three schedules, then nothing left to try. *)
Example session_example :
  results [(Solve, Demo.engine);
           (FindAnotherSolution "task1_start", Demo.engine);
           (FindAnotherSolution "task1_start", Demo.engine);
           (FindAnotherSolution "task1_start", Demo.engine);
           (FindAnotherSolution "no_such_variable", Demo.engine)]
          Demo.self0
  = [inr true; inr true; inr true; inr false; inl (AttributeError "as_long")].
Proof. vm_compute. reflexivity. Qed.

(** ** The theorems at work on the example *)

Lemma example_populated : intervals_populated (get_tasks Demo.pb).
Proof. by apply intervals_populated_check. Qed.

Lemma example_stuck_populated : intervals_populated (get_tasks Demo.pb_stuck).
Proof. by apply intervals_populated_check. Qed.

Lemma process_work_amount_constraints_example :
  intervals_populated (get_tasks (_problem (blank Demo.pb false))) /\
  exists cs,
    process_work_amount (blank Demo.pb false)
    = (inr tt, staged (blank Demo.pb false) cs [], []) /\
    Forall2 work_amount_constraint [Demo.task_1] cs.
Proof.
  split; [exact example_populated|].
  exact (process_work_amount_constraints (blank Demo.pb false) example_populated).
Defined.

Lemma excluded_values_never_return_example :
  let before := [(Solve, Demo.engine)] in
  let after := [(FindAnotherSolution "task1_start", Demo.engine)] in
  let calls :=
    before ++ (FindAnotherSolution "task1_start", Demo.engine) :: after in
  current_solution (final before Demo.self0) = Some (Demo.schedule 0 0 0) /\
  Demo.schedule 0 0 0 !! "task1_start" = Some 0 /\
  last (results calls Demo.self0) = Some (inr true) /\
  exists solution',
    current_solution (final calls Demo.self0) = Some solution' /\
    solution' !! "task1_start" <> Some 0.
Proof.
  intros before after calls.
  assert (Hcur : current_solution (final before Demo.self0)
                 = Some (Demo.schedule 0 0 0)) by (vm_compute; reflexivity).
  assert (Hval : Demo.schedule 0 0 0 !! "task1_start" = Some 0)
    by (vm_compute; reflexivity).
  assert (Hlast : last (results calls Demo.self0) = Some (inr true))
    by (vm_compute; reflexivity).
  split; [exact Hcur|]. split; [exact Hval|]. split; [exact Hlast|].
  apply (excluded_values_never_return before Demo.engine "task1_start" after
           Demo.self0 (Demo.schedule 0 0 0) 0).
  - repeat constructor; apply search_sound.
  - exact Hcur.
  - exact Hval.
  - exact Hlast.
Defined.

Lemma no_resource_is_unsat_example :
  Demo.stuck ∈ get_tasks Demo.pb_stuck /\
  0 < Task.work_amount Demo.stuck /\
  Task.required_resources Demo.stuck = [] /\
  exists self out,
    __init__ Demo.pb_stuck false 60 false = (inr self, out) /\
    BoolVal false ∈ assertions (_solver self) /\
    forall engine, z3.sound engine ->
      exists out', solve engine self = (inr false, self, out').
Proof.
  assert (Hin : Demo.stuck ∈ get_tasks Demo.pb_stuck) by (right; left).
  assert (Hwork : 0 < Task.work_amount Demo.stuck) by (simpl; lia).
  split; [exact Hin|]. split; [exact Hwork|]. split; [reflexivity|].
  apply (no_resource_is_unsat Demo.pb_stuck false 60 false Demo.stuck
           example_stuck_populated Hin Hwork eq_refl).
Defined.

Lemma find_another_solution_unsolved_example :
  current_solution Demo.self0 = None /\
  find_another_solution Demo.engine "task1_start" Demo.self0
  = (inr false, Demo.self0,
     [warn "No current solution. First call the solve() method."]).
Proof.
  split; [reflexivity|].
  apply (find_another_solution_unsolved Demo.engine "task1_start" Demo.self0).
  reflexivity.
Defined.

Lemma latest_objective_example :
  LATEST ∈ objectives Demo.pb /\
  exists self out,
    __init__ Demo.pb false 60 false = (inr self, out) /\
    kind (_solver self) = Optimize /\
    Or (map (fun task => Eq (Int "SmallestStartTime") (Task.start task))
            (get_tasks Demo.pb))
      ∈ assertions (_solver self) /\
    (forall task, task ∈ get_tasks Demo.pb ->
       Le (Int "SmallestStartTime") (Task.start task) ∈ assertions (_solver self)) /\
    maximize (Int "SmallestStartTime") ∈ targets (_solver self) /\
    (forall m, Forall (fun f => holds m f = true) (assertions (_solver self)) ->
       (exists task, task ∈ get_tasks Demo.pb /\
          interp m "SmallestStartTime" = eval m (Task.start task)) /\
       (forall task, task ∈ get_tasks Demo.pb ->
          interp m "SmallestStartTime" <= eval m (Task.start task))).
Proof.
  assert (Hlatest : LATEST ∈ objectives Demo.pb) by left.
  split; [exact Hlatest|].
  apply (latest_objective Demo.pb false 60 false example_populated Hlatest).
Defined.

Lemma engine_mode_example :
  intervals_populated (get_tasks Demo.pb_plain) /\
  exists self out,
    __init__ Demo.pb_plain false 60 false = (inr self, out) /\
    (objectives Demo.pb_plain <> [] -> kind (_solver self) = Optimize) /\
    (objectives Demo.pb_plain = [] ->
       kind (_solver self) = SolverFor_QF_LIA /\ targets (_solver self) = []).
Proof.
  split; [exact example_populated|].
  apply (engine_mode Demo.pb_plain false 60 false). exact example_populated.
Defined.


Lemma failure_keeps_solution_example :
  let c := FindAnotherSolution "task1_start" in
  let r := (perform c Demo.out_of_time Demo.self1).1.1 in
  let self' := (perform c Demo.out_of_time Demo.self1).1.2 in
  r = inr false /\
  current_solution Demo.self1 = Some (Demo.schedule 0 0 0) /\
  current_solution self' = current_solution Demo.self1 /\
  _problem self' = _problem Demo.self1 /\
  (c = Solve -> self' = Demo.self1).
Proof.
  intros c r self'.
  split; [vm_compute; reflexivity|]. split; [vm_compute; reflexivity|].
  apply (failure_keeps_solution c Demo.out_of_time Demo.self1 self' r
           (perform c Demo.out_of_time Demo.self1).2).
  - unfold r, self'. by destruct (perform c Demo.out_of_time Demo.self1) as [[??]?].
  - vm_compute. discriminate.
Defined.

(** ** The constructor, in full *)

Section ConstructorInFull.

Context {P : Type} `{SchedulingProblem P}.

Lemma init_body_run (problem : P) verbosity max_time parallel :
  init_body problem verbosity max_time parallel (blank problem verbosity)
  = let '(r, self, out) :=
      stage_all problem
        (mk_self problem verbosity (mk_solver (init_kind problem) [] []) None) in
    (r, self, init_report problem verbosity max_time parallel ++ out).
Proof.
  unfold init_body, init_report, init_kind, stage_all.
  destruct verbosity, parallel, (objectives problem) as [|obj objs] eqn:Hobjs;
    unfold when; simpl;
    repeat (first [ erewrite (bind_ok (emit _)) by reflexivity
                  | erewrite (bind_ok (set_solver _)) by reflexivity
                  | erewrite (bind_ok (mret tt)) by reflexivity
                  | erewrite (bind_ok (_ ;; _)) by reflexivity ]);
    unfold blank; simpl;
    match goal with
    | |- context [ mbind ?f ?m ?s ] => by destruct (mbind f m s) as [[??]?]
    end.
Qed.

Lemma resources_unpopulated task rs :
  resources_populatedb task rs = false ->
  exists r, r ∈ rs /\ Resource.busy_intervals r !! Task.name task = None.
Proof.
  induction rs as [|r rs IH]; simpl; [done|].
  destruct (Resource.busy_intervals r !! Task.name task) eqn:Hlook; simpl.
  - intros Hrest. destruct (IH Hrest) as (r' & Hr' & Hnone).
    exists r'. split; [by right | done].
  - intros _. exists r. split; [by left | done].
Qed.

(** The first task whose lookup fails is the one the KeyError names. *)
Lemma process_tasks_raise_at tasks (self : SchedulingSolver P) :
  intervals_populatedb tasks = false ->
  exists task r self',
    task ∈ tasks /\ 0 < Task.work_amount task /\
    r ∈ Task.required_resources task /\
    Resource.busy_intervals r !! Task.name task = None /\
    for_each tasks process_task_work_amount self
    = (inl (KeyError (Task.name task)), self', []).
Proof.
  revert self. induction tasks as [|task tasks IH]; intros self; simpl; [done|].
  destruct (0 <? Task.work_amount task) eqn:Hwork; simpl.
  - fold (resources_populatedb task (Task.required_resources task)).
    destruct (resources_populatedb task (Task.required_resources task)) eqn:Hrs;
      simpl; intros Hrest.
    + erewrite bind_ok.
      2:{ apply process_task_work_amount_staged. intros _ r Hr.
          unfold resources_populatedb in Hrs. rewrite forallb_forall in Hrs.
          apply list_elem_of_In in Hr. specialize (Hrs r Hr).
          by destruct (Resource.busy_intervals r !! Task.name task). }
      destruct (IH (staged self (work_amount_assertions task) []) Hrest)
        as (task' & r & self' & Hin & Hw & Hr & Hnone & ->).
      exists task', r, self'. repeat split; try done. by right.
    + destruct (resources_unpopulated _ _ Hrs) as (r & Hr & Hnone).
      exists task, r, self. repeat split; try done.
      * by left.
      * by apply Z.ltb_lt.
      * erewrite bind_raise; [done|].
        unfold process_task_work_amount. rewrite Hwork.
        by erewrite bind_raise by (by apply collect_raises).
  - intros Hrest. erewrite bind_ok.
    2:{ apply process_task_work_amount_staged. intros Hpos.
        apply Z.ltb_ge in Hwork. lia. }
    destruct (IH (staged self (work_amount_assertions task) []) Hrest)
      as (task' & r & self' & Hin & Hw & Hr & Hnone & ->).
    exists task', r, self'. repeat split; try done. by right.
Qed.

Lemma stage_all_ok (problem : P) verbosity :
  intervals_populated (get_tasks problem) ->
  stage_all problem
    (mk_self problem verbosity (mk_solver (init_kind problem) [] []) None)
  = (inr tt, mk_self problem verbosity (init_solver problem) None, []).
Proof. apply staging_ok. Qed.

Lemma stage_all_raises_at (problem : P) verbosity :
  intervals_populatedb (get_tasks problem) = false ->
  exists task r self',
    task ∈ get_tasks problem /\ 0 < Task.work_amount task /\
    r ∈ Task.required_resources task /\
    Resource.busy_intervals r !! Task.name task = None /\
    stage_all problem
      (mk_self problem verbosity (mk_solver (init_kind problem) [] []) None)
    = (inl (KeyError (Task.name task)), self', []).
Proof.
  intros Hbad. unfold stage_all.
  erewrite bind_ok by
    (apply (for_each_staged _ (task_assertions problem) (fun _ => []));
     intros; apply stage_task_staged).
  erewrite bind_ok by apply solver_add_all_staged.
  erewrite bind_ok by
    (apply (for_each_staged _ Resource.get_assertions (fun _ => []));
     intros; apply solver_add_all_staged).
  match goal with
  | |- context [ (process_work_amount ;; create_objectives) ?s ] =>
      destruct (process_tasks_raise_at (get_tasks problem) s Hbad)
        as (task & r & self' & Hin & Hw & Hr & Hnone & Hraise)
  end.
  exists task, r, self'. repeat split; try done.
  erewrite bind_raise; [done|].
  unfold process_work_amount. erewrite bind_ok by reflexivity.
  simpl. simpl in Hraise. by rewrite Hraise.
Qed.

(** X1. When it returns, the constructor has staged exactly this, in this
    order: for each task its own assertions, then end >= 0, then start >= 0
    unless lower bounded, then end <= horizon unless upper bounded; the
    user's constraints as they are; the assertions of each resource; the
    work-amount assertions; the assertions of the objectives.  The solver
    keeps the problem and the verbosity it was given and retains no
    solution. *)
Theorem constructor_stages_in_order (problem : P) verbosity max_time parallel :
  intervals_populated (get_tasks problem) ->
  exists self out,
    __init__ problem verbosity max_time parallel = (inr self, out) /\
    _problem self = problem /\
    _verbosity self = verbosity /\
    current_solution self = None /\
    assertions (_solver self)
    = concat (map (fun task =>
                     Task.get_assertions task
                     ++ [Ge (Task.end_ task) (IntVal 0)]
                     ++ (if Task.lower_bounded task then []
                         else [Ge (Task.start task) (IntVal 0)])
                     ++ (if Task.upper_bounded task then []
                         else [Le (Task.end_ task) (horizon problem)]))
                  (get_tasks problem))
      ++ _constraints problem
      ++ concat (map Resource.get_assertions (get_resources problem))
      ++ concat (map work_amount_assertions (get_tasks problem))
      ++ concat (map (objective_assertions (get_tasks problem)) (objectives problem)).
Proof.
  intros Hpop.
  destruct (init_ok problem verbosity max_time parallel Hpop) as [out Hinit].
  eexists _, out. split; [exact Hinit|]. done.
Qed.

(** X2. The constructor either returns a solver, which it does exactly
    when every busy interval it looks up is there, or raises KeyError for a
    task that asks for work and requires a resource holding no busy interval
    for it.  It raises nothing else. *)
Theorem constructor_returns_or_raises (problem : P) verbosity max_time parallel :
  (intervals_populated (get_tasks problem) /\
   exists self out, __init__ problem verbosity max_time parallel = (inr self, out))
  \/
  (~ intervals_populated (get_tasks problem) /\
   exists task r out,
     task ∈ get_tasks problem /\ 0 < Task.work_amount task /\
     r ∈ Task.required_resources task /\
     Resource.busy_intervals r !! Task.name task = None /\
     __init__ problem verbosity max_time parallel
     = (inl (KeyError (Task.name task)), out)).
Proof.
  destruct (intervals_populatedb (get_tasks problem)) eqn:Hcheck.
  - left. apply intervals_populated_check in Hcheck. split; [done|].
    destruct (init_ok problem verbosity max_time parallel Hcheck) as [out Hinit].
    eauto.
  - right.
    destruct (stage_all_raises_at problem verbosity Hcheck)
      as (task & r & self' & Hin & Hw & Hr & Hnone & Hraise).
    split.
    + intros Hpop. destruct (Hpop task r Hin Hw Hr) as [? Hsome]. congruence.
    + exists task, r. eexists. repeat split; try done.
      unfold __init__. by rewrite init_body_run, Hraise.
Qed.

(** X3. Whether it returns or raises, the constructor sets the engine's
    timeout option to max_time seconds expressed in milliseconds; it sets
    the verbose option to 2 and prints the engine mode only when verbose,
    and enables parallel search, with at most 4 threads, only when asked to.
    It emits nothing else. *)
Theorem constructor_configuration (problem : P) verbosity max_time parallel :
  (__init__ problem verbosity max_time parallel).2
  = (if verbosity then [set_option "verbose" (OInt 2)] else [])
    ++ [set_option "timeout" (OInt (max_time * 1000))]
    ++ (if verbosity then
          [print (match objectives problem with
                  | [] => "Solver without optimization enabled"
                  | _ :: _ => "Solver with optimization enabled"
                  end)]
        else [])
    ++ (if parallel then
          [set_option "parallel.enable" (OBool true);
           set_option "parallel.threads.max" (OInt 4)]
        else []).
Proof.
  unfold __init__. rewrite init_body_run.
  destruct (intervals_populatedb (get_tasks problem)) eqn:Hcheck.
  - apply intervals_populated_check in Hcheck.
    rewrite (stage_all_ok problem verbosity Hcheck). simpl.
    by rewrite app_nil_r.
  - destruct (stage_all_raises_at problem verbosity Hcheck)
      as (task & r & self' & _ & _ & _ & _ & ->). simpl.
    by rewrite app_nil_r.
Qed.

End ConstructorInFull.

(** ** The other objectives *)

Section Objectives.

Context {P : Type} `{SchedulingProblem P}.

Lemma holds_eq_sum m t ts :
  holds m (eq_sum t (Sum ts)) = true
  <-> eval m t = foldr (fun a acc => eval m a + acc) 0 ts.
Proof. destruct ts; simpl; lia. Qed.

Lemma targets_in_order (problem : P) :
  init_targets problem
  = map (fun obj =>
           match obj with
           | MAKESPAN => minimize (horizon problem)
           | LATEST => maximize (Int "SmallestStartTime")
           | FLOWTIME => minimize (Int "FlowTime")
           | EARLIEST => minimize (Int "GreatestStartTime")
           end)
        (objectives problem).
Proof.
  unfold init_targets.
  induction (objectives problem) as [|obj objs IH]; [done|].
  simpl. rewrite IH. by destruct obj.
Qed.

(** X4. When EARLIEST is among the objectives, the constructed solver holds,
    for the auxiliary variable GreatestStartTime, the disjunction that it
    equals the start of some task, for every task the assertion that it is
    at least the task's start, and the target of minimising it.  In any
    model of the staged assertions its value is the greatest task start. *)
Theorem earliest_objective (problem : P) verbosity max_time parallel :
  intervals_populated (get_tasks problem) ->
  EARLIEST ∈ objectives problem ->
  let maxi := Int "GreatestStartTime" in
  exists self out,
    __init__ problem verbosity max_time parallel = (inr self, out) /\
    Or (map (fun task => Eq maxi (Task.start task)) (get_tasks problem))
      ∈ assertions (_solver self) /\
    (forall task, task ∈ get_tasks problem ->
       Ge maxi (Task.start task) ∈ assertions (_solver self)) /\
    minimize maxi ∈ targets (_solver self) /\
    (forall m, Forall (fun f => holds m f = true) (assertions (_solver self)) ->
       (exists task, task ∈ get_tasks problem /\
          interp m "GreatestStartTime" = eval m (Task.start task)) /\
       (forall task, task ∈ get_tasks problem ->
          eval m (Task.start task) <= interp m "GreatestStartTime")).
Proof.
  intros Hpop Hearliest maxi.
  destruct (init_ok problem verbosity max_time parallel Hpop) as [out Hinit].
  eexists _, out. split; [exact Hinit|]. simpl.
  assert (Hor : Or (map (fun task => Eq maxi (Task.start task)) (get_tasks problem))
                  ∈ init_assertions problem).
  { eapply objective_assertions_staged_in; [exact Hearliest|]. by left. }
  assert (Hge : forall task, task ∈ get_tasks problem ->
                  Ge maxi (Task.start task) ∈ init_assertions problem).
  { intros task Htask.
    eapply objective_assertions_staged_in; [exact Hearliest|]. right.
    by apply (list_elem_of_fmap_2 (fun task => Ge maxi (Task.start task))). }
  split; [exact Hor|]. split; [exact Hge|]. split.
  - eapply objective_targets_staged_in; [exact Hearliest|]. by left.
  - intros m Hm. rewrite Forall_forall in Hm. split.
    + apply Hm in Hor. apply holds_Or_map in Hor as (task & Htask & Heq).
      exists task. split; [done|]. simpl in Heq. lia.
    + intros task Htask. specialize (Hm _ (Hge task Htask)). simpl in Hm. lia.
Qed.

(** X5. When FLOWTIME is among the objectives, the constructed solver holds
    the target of minimising the auxiliary variable FlowTime, and in any
    model of the staged assertions FlowTime is the sum of the ends of all
    tasks (0 when there is no task). *)
Theorem flowtime_objective (problem : P) verbosity max_time parallel :
  intervals_populated (get_tasks problem) ->
  FLOWTIME ∈ objectives problem ->
  exists self out,
    __init__ problem verbosity max_time parallel = (inr self, out) /\
    minimize (Int "FlowTime") ∈ targets (_solver self) /\
    (forall m, Forall (fun f => holds m f = true) (assertions (_solver self)) ->
       interp m "FlowTime"
       = foldr (fun task acc => eval m (Task.end_ task) + acc) 0 (get_tasks problem)).
Proof.
  intros Hpop Hflow.
  destruct (init_ok problem verbosity max_time parallel Hpop) as [out Hinit].
  eexists _, out. split; [exact Hinit|]. simpl. split.
  - eapply objective_targets_staged_in; [exact Hflow|]. by left.
  - intros m Hm. rewrite Forall_forall in Hm.
    assert (Hin : eq_sum (Int "FlowTime") (Sum (map Task.end_ (get_tasks problem)))
                    ∈ init_assertions problem).
    { eapply objective_assertions_staged_in; [exact Hflow|]. by left. }
    apply Hm, holds_eq_sum in Hin. simpl in Hin. rewrite Hin.
    clear. induction (get_tasks problem) as [|task tasks IH]; simpl; [done|].
    by rewrite IH.
Qed.

(** X6. Every requested objective contributes exactly one optimisation
    target, in the order the objectives are listed and with repetitions kept:
    MAKESPAN minimises the horizon itself, LATEST maximises
    SmallestStartTime, FLOWTIME minimises FlowTime, EARLIEST minimises
    GreatestStartTime. *)
Theorem one_target_per_objective (problem : P) verbosity max_time parallel :
  intervals_populated (get_tasks problem) ->
  exists self out,
    __init__ problem verbosity max_time parallel = (inr self, out) /\
    targets (_solver self)
    = map (fun obj =>
             match obj with
             | MAKESPAN => minimize (horizon problem)
             | LATEST => maximize (Int "SmallestStartTime")
             | FLOWTIME => minimize (Int "FlowTime")
             | EARLIEST => minimize (Int "GreatestStartTime")
             end)
          (objectives problem).
Proof.
  intros Hpop.
  destruct (init_ok problem verbosity max_time parallel Hpop) as [out Hinit].
  eexists _, out. split; [exact Hinit|]. apply targets_in_order.
Qed.

(** X7. On a problem without tasks, asking for LATEST or EARLIEST stages an
    empty disjunction, which nothing satisfies: the constructor returns, and
    [solve] returns false for every sound engine. *)
Theorem start_objective_needs_a_task (problem : P) verbosity max_time parallel :
  get_tasks problem = [] ->
  LATEST ∈ objectives problem \/ EARLIEST ∈ objectives problem ->
  exists self out,
    __init__ problem verbosity max_time parallel = (inr self, out) /\
    Or [] ∈ assertions (_solver self) /\
    forall engine, z3.sound engine ->
      exists out', solve engine self = (inr false, self, out').
Proof.
  intros Hnone Hobj.
  assert (Hpop : intervals_populated (get_tasks problem)).
  { rewrite Hnone. intros task r Htask. by apply elem_of_nil in Htask. }
  destruct (init_ok problem verbosity max_time parallel Hpop) as [out Hinit].
  eexists _, out. split; [exact Hinit|]. simpl.
  assert (Hin : Or [] ∈ init_assertions problem).
  { destruct Hobj as [Hobj|Hobj];
      (eapply objective_assertions_staged_in; [exact Hobj|]);
      rewrite Hnone; by left. }
  split; [exact Hin|].
  intros engine Hsound. rewrite solve_run. simpl.
  destruct (check (engine (init_solver problem))) eqn:Hcheck; simpl; eauto.
  apply Hsound in Hcheck. rewrite Forall_forall in Hcheck.
  by specialize (Hcheck _ Hin).
Qed.

End Objectives.

(** ** What a session can and cannot change *)

Section Frame.

Context {P : Type} `{SchedulingProblem P}.

Lemma perform_frame c engine (self : SchedulingSolver P) :
  let self' := (perform c engine self).1.2 in
  _verbosity self' = _verbosity self /\
  kind (_solver self') = kind (_solver self) /\
  targets (_solver self') = targets (_solver self) /\
  (assertions (_solver self') = assertions (_solver self) \/
   exists variable solution value,
     c = FindAnotherSolution variable /\
     current_solution self = Some solution /\
     solution !! variable = Some value /\
     assertions (_solver self')
     = assertions (_solver self) ++ [Ne (Int variable) (IntVal value)]).
Proof.
  destruct c as [|variable]; simpl.
  - rewrite solve_run. destruct (is_sat _); simpl; auto.
  - rewrite find_another_solution_run.
    destruct (current_solution self) as [solution|] eqn:Hcur; [|simpl; auto].
    destruct (solution !! variable) as [value|] eqn:Hval; [|simpl; auto].
    rewrite solve_run. destruct (is_sat _); simpl; rewrite ?app_nil_r;
      repeat split; try done; right; eauto 8.
Qed.

(** X8. A session never changes the verbosity, the engine mode or the
    optimisation targets, and never removes or rewrites an assertion: the
    assertions at its end are those at its start followed by exclusions
    variable != value, at most one for each call of
    [find_another_solution] and each for a variable such a call names. *)
Theorem session_only_adds_exclusions calls (self : SchedulingSolver P) :
  let self' := final calls self in
  _verbosity self' = _verbosity self /\
  kind (_solver self') = kind (_solver self) /\
  targets (_solver self') = targets (_solver self) /\
  exists extra,
    assertions (_solver self') = assertions (_solver self) ++ extra /\
    (length extra <= length calls)%nat /\
    Forall (fun f => exists variable value engine,
                       (FindAnotherSolution variable, engine) ∈ calls /\
                       f = Ne (Int variable) (IntVal value))
           extra.
Proof.
  revert self. induction calls as [|[c engine] calls IH]; intros self; simpl.
  - repeat split; try done. exists []. by rewrite app_nil_r.
  - rewrite final_cons.
    destruct (perform_frame c engine self) as (Hv & Hk & Ht & Ha).
    destruct (IH (perform c engine self).1.2) as (Hv' & Hk' & Ht' & extra & Ha' & Hlen & Hall).
    split; [congruence|]. split; [congruence|]. split; [congruence|].
    assert (Hall' : Forall (fun f => exists variable value engine0,
                       (FindAnotherSolution variable, engine0) ∈ (c, engine) :: calls /\
                       f = Ne (Int variable) (IntVal value)) extra).
    { eapply Forall_impl; [exact Hall|].
      intros f (x & v & e & Hin & ->). exists x, v, e. split; [by right | done]. }
    destruct Ha as [Ha|(x & m & v & -> & _ & _ & Ha)].
    + exists extra. rewrite Ha', Ha. repeat split; [lia | done].
    + exists (Ne (Int x) (IntVal v) :: extra).
      rewrite Ha', Ha, <- app_assoc. repeat split; [simpl; lia|].
      constructor; [|done]. exists x, v, engine. split; [by left | done].
Qed.

(** X9. A [find_another_solution] that reads a value and then fails to
    re-solve does not take the exclusion back: it stays staged, while the
    retained solution is still the old one, which from now on violates the
    staged assertions. *)
Theorem failed_diversification_is_not_undone engine variable
    (self self' : SchedulingSolver P) solution value out :
  current_solution self = Some solution ->
  solution !! variable = Some value ->
  find_another_solution engine variable self = (inr false, self', out) ->
  assertions (_solver self')
  = assertions (_solver self) ++ [Ne (Int variable) (IntVal value)] /\
  current_solution self' = Some solution /\
  ~ Forall (fun f => holds solution f = true) (assertions (_solver self')).
Proof.
  intros Hcur Hval. rewrite find_another_solution_run, Hcur, Hval, solve_run.
  destruct (is_sat _); [done|]. intros [= <- <-]. simpl.
  repeat split; try done.
  rewrite Forall_app, Forall_singleton. intros [_ Hbad].
  simpl in Hbad. unfold interp in Hbad. rewrite Hval in Hbad. simpl in Hbad.
  by rewrite Z.eqb_refl in Hbad.
Qed.

(** X10. The only call that raises is [find_another_solution] on a variable
    the retained solution does not bind: it raises AttributeError before
    anything is staged, printed or asked of the engine, and leaves the
    solver as it was.  [solve] never raises. *)
Theorem only_unbound_variable_raises c engine (self self' : SchedulingSolver P)
    e out :
  perform c engine self = (inl e, self', out)
  <-> exists variable solution,
        c = FindAnotherSolution variable /\
        current_solution self = Some solution /\
        solution !! variable = None /\
        e = AttributeError "as_long" /\ self' = self /\ out = [].
Proof.
  split.
  - destruct c as [|variable]; simpl.
    + rewrite solve_run. by destruct (is_sat _).
    + rewrite find_another_solution_run.
      destruct (current_solution self) as [solution|] eqn:Hcur; [|done].
      destruct (solution !! variable) as [value|] eqn:Hval.
      * rewrite solve_run. by destruct (is_sat _).
      * intros [= <- <- <-]. eauto 8.
  - intros (variable & solution & -> & Hcur & Hval & -> & -> & ->). simpl.
    by rewrite find_another_solution_run, Hcur, Hval.
Qed.

(** X11. As long as no call returns true, a session on a solver that
    retains no solution changes nothing at all: failed solves leave the
    solver as it is, and every [find_another_solution] only warns. *)
Theorem fruitless_session_changes_nothing calls (self : SchedulingSolver P) :
  current_solution self = None ->
  Forall (fun r => r <> inr true) (results calls self) ->
  final calls self = self.
Proof.
  revert self. induction calls as [|[c engine] calls IH]; intros self Hnone; [done|].
  rewrite results_cons, final_cons. intros Hall.
  apply Forall_cons in Hall as [Hr Hall].
  assert (Hsame : (perform c engine self).1.2 = self).
  { destruct c as [|variable]; simpl in *.
    - rewrite solve_run in *. by destruct (is_sat _).
    - rewrite find_another_solution_run, Hnone in *. done. }
  rewrite Hsame in *. by apply IH.
Qed.

End Frame.

(** ** Traces of sessions *)

Section SessionTraces.

Context {P : Type} `{SchedulingProblem P}.

Lemma trace_cons c engine rest (self : SchedulingSolver P) :
  trace ((c, engine) :: rest) self
  = (perform c engine self).2 ++ trace rest (perform c engine self).1.2.
Proof.
  unfold trace. rewrite run_cons.
  destruct (perform c engine self) as [[r self'] out]; simpl.
  by destruct (run rest self') as [[rs self''] out'].
Qed.

(** What one call hands to the problem and retains. *)
Lemma perform_hands_over c engine (self : SchedulingSolver P) :
  let '(r, self', out) := perform c engine self in
  match r with
  | inr true =>
      exists m, set_solution_calls out = [m] /\ model_retrievals out = 1%nat /\
        current_solution self' = Some m /\
        _problem self' = set_solution (_problem self) m
  | _ =>
      set_solution_calls out = [] /\ model_retrievals out = 0%nat /\
      current_solution self' = current_solution self /\
      _problem self' = _problem self
  end.
Proof.
  assert (Hsolve : forall s : SchedulingSolver P,
    let '(r, self', out) := solve engine s in
    match r with
    | inr true =>
        exists m, set_solution_calls out = [m] /\ model_retrievals out = 1%nat /\
          current_solution self' = Some m /\
          _problem self' = set_solution (_problem s) m
    | _ =>
        set_solution_calls out = [] /\ model_retrievals out = 0%nat /\
        current_solution self' = current_solution s /\
        _problem self' = _problem s
    end).
  { intros s. rewrite solve_run.
    pose proof (check_sat_report_quiet engine s) as Hquiet.
    destruct (is_sat _).
    - eexists. rewrite model_retrievals_app, set_solution_calls_app.
      rewrite quiet_model_retrievals, quiet_set_solution_calls by done.
      by rewrite solve_report_retrievals, solve_report_set_solution.
    - by rewrite quiet_model_retrievals, quiet_set_solution_calls. }
  destruct c as [|variable]; simpl; [apply Hsolve|].
  rewrite find_another_solution_run.
  destruct (current_solution self) as [solution|] eqn:Hcur; [|done].
  destruct (solution !! variable) as [value|]; [|done].
  specialize (Hsolve (staged self [Ne (Int variable) (IntVal value)] [])).
  destruct (solve engine _) as [[r self'] out].
  destruct r as [e|[|]]; simpl in *; by rewrite <- ?Hcur.
Qed.

(** X12. Over a whole session, the problem's [set_solution] is called once
    for each call that returns true and never otherwise, and so is the
    engine's [model]; the problem ends up having received exactly these
    models, in order; and the solution retained at the end is the last of
    them (the one retained at the start if there is none). *)
Theorem set_solution_follows_successes calls (self : SchedulingSolver P) :
  let handed := set_solution_calls (trace calls self) in
  length handed = successes (results calls self) /\
  model_retrievals (trace calls self) = successes (results calls self) /\
  _problem (final calls self) = foldl set_solution (_problem self) handed /\
  current_solution (final calls self)
  = match last handed with
    | Some m => Some m
    | None => current_solution self
    end.
Proof.
  revert self. induction calls as [|[c engine] calls IH]; intros self; [done|].
  rewrite trace_cons, results_cons, final_cons.
  pose proof (perform_hands_over c engine self) as Hcall.
  destruct (perform c engine self) as [[r self'] out]; simpl in *.
  destruct (IH self') as (Hlen & Hret & Hpb & Hcur).
  rewrite set_solution_calls_app, model_retrievals_app, length_app, foldl_app.
  rewrite Hpb, Hcur. unfold successes in *.
  set (handed := set_solution_calls (trace calls self')) in *.
  assert (Hlast : forall l : list (gmap string Z),
            last (l ++ handed)
            = match last handed with Some m => Some m | None => last l end).
  { intros l. destruct handed as [|m ms _] using rev_ind.
    - by rewrite app_nil_r.
    - by rewrite app_assoc, !last_snoc. }
  rewrite Hlast.
  destruct r as [e|[|]]; simpl.
  - destruct Hcall as (-> & -> & -> & ->). simpl.
    repeat split; try done. by destruct (last handed).
  - destruct Hcall as (m & -> & -> & -> & ->). simpl.
    repeat split; try congruence. by destruct (last handed).
  - destruct Hcall as (-> & -> & -> & ->). simpl.
    repeat split; try done. by destruct (last handed).
Qed.

Lemma engine_queries_app out out' :
  engine_queries (out ++ out') = engine_queries out ++ engine_queries out'.
Proof. apply List.filter_app. Qed.

Lemma engine_queries_map {A} (f : A -> event) xs :
  (forall x, match f x with
             | solver_check | solver_assertions | solver_reason_unknown
             | solver_model | solver_statistics => False
             | _ => True
             end) ->
  engine_queries (map f xs) = [].
Proof.
  intros Hf. induction xs as [|x xs IH]; [done|].
  unfold engine_queries in *. simpl. rewrite IH.
  specialize (Hf x). by destruct (f x).
Qed.

(** X13. One [solve] calls the engine in this order and in no other way:
    one check; when verbose, one read of the staged assertions; after
    unknown, the reason; after sat, the model and, when verbose, the
    statistics; after unsat, nothing more.  So the engine is never asked for
    a model it does not have, nor for a reason after anything but unknown. *)
Theorem engine_protocol engine (self : SchedulingSolver P) :
  engine_queries (solve engine self).2
  = solver_check
    :: (if _verbosity self then [solver_assertions] else [])
    ++ match check (engine (_solver self)) with
       | unsat => []
       | unknown => [solver_reason_unknown]
       | sat => solver_model :: (if _verbosity self then [solver_statistics] else [])
       end.
Proof.
  assert (Hcheck : engine_queries (check_sat_report engine self)
                   = solver_check
                     :: (if _verbosity self then [solver_assertions] else [])
                     ++ match check (engine (_solver self)) with
                        | unknown => [solver_reason_unknown]
                        | _ => []
                        end).
  { unfold check_sat_report. rewrite !engine_queries_app.
    assert (Hdump : engine_queries
                      (if _verbosity self then
                         solver_assertions
                         :: map print_assertion (assertions (_solver self))
                       else [])
                    = if _verbosity self then [solver_assertions] else []).
    { destruct (_verbosity self); [|done].
      change (engine_queries (solver_assertions :: ?l))
        with (solver_assertions :: engine_queries l).
      by rewrite (engine_queries_map print_assertion). }
    rewrite Hdump. by destruct (check (engine (_solver self))). }
  rewrite solve_run.
  destruct (check (engine (_solver self))) eqn:Hres;
    cbv beta iota delta [is_sat snd]; rewrite ?engine_queries_app, Hcheck;
    try done.
  unfold solve_report. rewrite !engine_queries_app.
  destruct (_verbosity self); [|done].
  rewrite !engine_queries_app.
  rewrite !engine_queries_map by (by intros [??]). done.
Qed.

Lemma perform_with_verbosity verbosity c engine (self : SchedulingSolver P) :
  (perform c engine (with_verbosity verbosity self)).1.1 = (perform c engine self).1.1 /\
  (perform c engine (with_verbosity verbosity self)).1.2
  = with_verbosity verbosity (perform c engine self).1.2.
Proof.
  destruct c as [|variable]; simpl.
  - rewrite !solve_run. simpl. by destruct (is_sat _).
  - rewrite !find_another_solution_run. simpl.
    destruct (current_solution self) as [solution|]; [|done].
    destruct (solution !! variable) as [value|]; [|done].
    rewrite !solve_run. simpl. by destruct (is_sat _).
Qed.

(** X14. Verbosity changes only what is printed: with the same engine
    behaviour, a session returns the same results and ends in the same
    solver (problem, staged engine, retained solution) whether the solver is
    verbose or not. *)
Theorem verbosity_only_prints verbosity calls (self : SchedulingSolver P) :
  results calls (with_verbosity verbosity self) = results calls self /\
  final calls (with_verbosity verbosity self)
  = with_verbosity verbosity (final calls self).
Proof.
  revert self. induction calls as [|[c engine] calls IH]; intros self; [done|].
  rewrite !results_cons, !final_cons.
  destruct (perform_with_verbosity verbosity c engine self) as [-> ->].
  destruct (IH (perform c engine self).1.2) as [-> ->]. done.
Qed.

End SessionTraces.

(** ** What every returned solution satisfies *)

Section Returned.

Context {P : Type} `{SchedulingProblem P}.

Lemma constraints_staged_in (problem : P) f :
  f ∈ _constraints problem -> f ∈ init_assertions problem.
Proof.
  intros Hf. unfold init_assertions.
  apply elem_of_app; right. apply elem_of_app; by left.
Qed.

Lemma resource_assertions_staged_in (problem : P) r f :
  r ∈ get_resources problem ->
  f ∈ Resource.get_assertions r ->
  f ∈ init_assertions problem.
Proof.
  intros Hr Hf. unfold init_assertions.
  do 2 (apply elem_of_app; right). apply elem_of_app; left.
  by apply (elem_of_concat_map _ _ r).
Qed.

Lemma own_assertions_in (problem : P) task f :
  f ∈ Task.get_assertions task -> f ∈ task_assertions problem task.
Proof. intros Hf. unfold task_assertions. apply elem_of_app; by left. Qed.

(** X15. In any session on the constructed solver with a sound engine, the
    solution retained by a call that returns true satisfies every task's
    own assertions, every constraint of the problem and every resource's
    assertions, and gives each task that asks for work at least its work
    amount, counted as productivity times busy time over its required
    resources. *)
Theorem returned_solution_meets_requirements (problem : P) verbosity max_time
    parallel :
  intervals_populated (get_tasks problem) ->
  exists self out,
    __init__ problem verbosity max_time parallel = (inr self, out) /\
    forall calls,
      sound_calls calls ->
      last (results calls self) = Some (inr true) ->
      exists solution,
        current_solution (final calls self) = Some solution /\
        (forall task, task ∈ get_tasks problem ->
           Forall (fun f => holds solution f = true) (Task.get_assertions task) /\
           (0 < Task.work_amount task ->
              Task.work_amount task <= total_work solution task)) /\
        Forall (fun f => holds solution f = true) (_constraints problem) /\
        (forall r, r ∈ get_resources problem ->
           Forall (fun f => holds solution f = true) (Resource.get_assertions r)).
Proof.
  intros Hpop.
  destruct (init_ok problem verbosity max_time parallel Hpop) as [out Hinit].
  eexists _, out. split; [exact Hinit|].
  set (self0 := mk_self problem verbosity (init_solver problem) None).
  intros calls Hsound Hlast.
  destruct (final_true calls self0 Hsound Hlast) as (m & Hcur & Hall).
  exists m. split; [exact Hcur|]. rewrite Forall_forall in Hall.
  assert (Hinit_holds : forall f, f ∈ init_assertions problem -> holds m f = true).
  { intros f Hf. apply Hall. by apply (final_assertions calls self0). }
  split; [|split].
  - intros task Htask. split.
    + apply Forall_forall. intros f Hf. apply Hinit_holds.
      apply (task_assertions_staged problem task); [done|].
      by apply own_assertions_in.
    + intros Hwork.
      destruct (work_amount_assertions_spec task Hwork) as (f & Hf & Hsem).
      assert (Hin : f ∈ init_assertions problem).
      { apply (work_amount_assertions_staged_in problem task); [done|].
        rewrite Hf. by left. }
      apply Hinit_holds in Hin. rewrite Hsem in Hin. lia.
  - apply Forall_forall. intros f Hf. by apply Hinit_holds, constraints_staged_in.
  - intros r Hr. apply Forall_forall. intros f Hf.
    by apply Hinit_holds, (resource_assertions_staged_in problem r).
Qed.

End Returned.

(** ** Diversification comes to an end *)

Section Exhaustion.

Context {P : Type} `{SchedulingProblem P}.

Lemma range_pigeonhole (v : Z) (vs : list Z) lo hi :
  NoDup (v :: vs) ->
  (forall w, w ∈ v :: vs -> lo <= w <= hi) ->
  Z.of_nat (length (v :: vs)) <= hi - lo + 1.
Proof.
  intros Hnodup Hrange.
  assert (Hsub : v :: vs ⊆+ seqZ lo (hi - lo + 1)).
  { apply NoDup_submseteq; [done|]. intros w Hw.
    apply elem_of_seqZ. specialize (Hrange w Hw). lia. }
  apply submseteq_length in Hsub. rewrite length_seqZ in Hsub.
  specialize (Hrange v ltac:(by left)). simpl in *. lia.
Qed.

Lemma diversify_bound engines variable lo hi (self : SchedulingSolver P) m vs :
  current_solution self = Some m ->
  Forall (fun f => holds m f = true) (assertions (_solver self)) ->
  Ge (Int variable) (IntVal lo) ∈ assertions (_solver self) ->
  Le (Int variable) (IntVal hi) ∈ assertions (_solver self) ->
  (forall v, v ∈ vs -> Ne (Int variable) (IntVal v) ∈ assertions (_solver self)) ->
  NoDup vs ->
  (forall v, v ∈ vs -> lo <= v <= hi) ->
  sound_calls (diversify variable engines) ->
  Forall (fun r => r = inr true) (results (diversify variable engines) self) ->
  Z.of_nat (length vs + length engines + 1) <= hi - lo + 1.
Proof.
  revert self m vs.
  induction engines as [|engine engines IH];
    intros self m vs Hcur Hm Hlo Hhi Hexcl Hnodup Hrange Hsound Hres.
  - assert (Hfresh : NoDup (interp m variable :: vs)).
    { constructor; [|done]. intros Hin.
      rewrite Forall_forall in Hm. specialize (Hm _ (Hexcl _ Hin)).
      simpl in Hm. by rewrite Z.eqb_refl in Hm. }
    assert (Hin_range : forall w, w ∈ interp m variable :: vs -> lo <= w <= hi).
    { intros w Hw. apply elem_of_cons in Hw as [->|Hw]; [|by apply Hrange].
      rewrite Forall_forall in Hm.
      pose proof (Hm _ Hlo) as H1. pose proof (Hm _ Hhi) as H2.
      simpl in H1, H2. lia. }
    pose proof (range_pigeonhole _ _ lo hi Hfresh Hin_range) as Hbound.
    simpl in *. lia.
  - unfold diversify in *. simpl in Hsound, Hres.
    rewrite results_cons in Hres.
    change (perform (FindAnotherSolution variable) engine self)
      with (find_another_solution engine variable self) in Hres.
    rewrite find_another_solution_run, Hcur in Hres.
    apply Forall_cons in Hsound as [Hengine Hsound]. simpl in Hengine.
    destruct (m !! variable) as [v|] eqn:Hv;
      [|by apply Forall_cons in Hres as [? _]].
    destruct (solve engine (staged self [Ne (Int variable) (IntVal v)] []))
      as [[r self'] out] eqn:Hsolve.
    apply Forall_cons in Hres as [Hr Hres]. simpl in Hr, Hres. subst r.
    destruct (solve_true _ _ _ _ Hsolve Hengine) as (m' & Hcur' & Hsolver & Hm').
    assert (Hinterp : interp m variable = v) by (unfold interp; by rewrite Hv).
    assert (Hv_fresh : v ∉ vs).
    { intros Hin. rewrite Forall_forall in Hm. specialize (Hm _ (Hexcl _ Hin)).
      simpl in Hm. rewrite Hinterp in Hm. by rewrite Z.eqb_refl in Hm. }
    assert (Hv_range : lo <= v <= hi).
    { rewrite Forall_forall in Hm.
      pose proof (Hm _ Hlo) as H1. pose proof (Hm _ Hhi) as H2.
      simpl in H1, H2. lia. }
    specialize (IH self' m' (v :: vs) Hcur').
    rewrite Hsolver in IH. simpl in IH.
    assert (Hgoal : Z.of_nat (length (v :: vs) + length engines + 1) <= hi - lo + 1).
    { apply IH; try done.
      - apply elem_of_app; by left.
      - apply elem_of_app; by left.
      - intros w Hw. apply elem_of_app.
        apply elem_of_cons in Hw as [->|Hw]; [right; by left | left; by apply Hexcl].
      - by constructor.
      - intros w Hw. apply elem_of_cons in Hw as [->|Hw]; [done | by apply Hrange]. }
    simpl in *. lia.
Qed.

(** X16. Diversifying a variable that the staged assertions keep between two
    integer bounds comes to an end: a [solve] followed by calls of
    [find_another_solution] on that variable cannot all return true once
    there are more calls than integers between the bounds. *)
Theorem diversification_is_bounded engine0 engines variable lo hi
    (self : SchedulingSolver P) :
  Ge (Int variable) (IntVal lo) ∈ assertions (_solver self) ->
  Le (Int variable) (IntVal hi) ∈ assertions (_solver self) ->
  let calls := (Solve, engine0) :: diversify variable engines in
  sound_calls calls ->
  Forall (fun r => r = inr true) (results calls self) ->
  Z.of_nat (length calls) <= hi - lo + 1.
Proof.
  intros Hlo Hhi calls Hsound Hres. unfold calls in *.
  rewrite results_cons in Hres.
  change (perform Solve engine0 self) with (solve engine0 self) in Hres.
  apply Forall_cons in Hsound as [Hengine Hsound]. simpl in Hengine.
  destruct (solve engine0 self) as [[r self'] out] eqn:Hsolve.
  apply Forall_cons in Hres as [Hr Hres]. simpl in Hr, Hres. subst r.
  destruct (solve_true _ _ _ _ Hsolve Hengine) as (m & Hcur & Hsolver & Hm).
  pose proof (diversify_bound engines variable lo hi self' m [] Hcur) as Hbound.
  rewrite Hsolver in Hbound.
  assert (Hlen : length (diversify variable engines) = length engines)
    by (unfold diversify; apply length_map).
  simpl. rewrite Hlen.
  assert (Hgoal : Z.of_nat (length (@nil Z) + length engines + 1) <= hi - lo + 1).
  { apply Hbound; try done.
    - intros v Hv. by apply elem_of_nil in Hv.
    - constructor.
    - intros v Hv. by apply elem_of_nil in Hv. }
  simpl in Hgoal. lia.
Qed.

End Exhaustion.

(** ** The further properties at work on the example *)

Lemma example_all_populated : intervals_populated (get_tasks Demo.pb_all).
Proof. by apply intervals_populated_check. Qed.

Lemma constructor_stages_in_order_example :
  exists self out,
    __init__ Demo.pb false 60 false = (inr self, out) /\
    _problem self = Demo.pb /\
    _verbosity self = false /\
    current_solution self = None /\
    assertions (_solver self)
    = [Eq (Int "task1_end") (Add [Int "task1_start"; IntVal 3]);
       Ge (Int "task1_end") (IntVal 0);
       Ge (Int "task1_start") (IntVal 0);
       Le (Int "task1_end") (IntVal 5);
       Eq (Int "task2_end") (Add [Int "task2_start"; IntVal 1]);
       Ge (Int "task2_end") (IntVal 0);
       Ge (Add [Mul (IntVal 2) (Sub (Int "task1_end") (Int "task1_start"))])
          (IntVal 4);
       Or [Eq (Int "SmallestStartTime") (Int "task1_start");
           Eq (Int "SmallestStartTime") (Int "task2_start")];
       Le (Int "SmallestStartTime") (Int "task1_start");
       Le (Int "SmallestStartTime") (Int "task2_start")].
Proof.
  exact (constructor_stages_in_order Demo.pb false 60 false example_populated).
Defined.

Lemma earliest_objective_example :
  EARLIEST ∈ objectives Demo.pb_all /\
  exists self out,
    __init__ Demo.pb_all false 60 false = (inr self, out) /\
    Or (map (fun task => Eq (Int "GreatestStartTime") (Task.start task))
            (get_tasks Demo.pb_all))
      ∈ assertions (_solver self) /\
    (forall task, task ∈ get_tasks Demo.pb_all ->
       Ge (Int "GreatestStartTime") (Task.start task) ∈ assertions (_solver self)) /\
    minimize (Int "GreatestStartTime") ∈ targets (_solver self) /\
    (forall m, Forall (fun f => holds m f = true) (assertions (_solver self)) ->
       (exists task, task ∈ get_tasks Demo.pb_all /\
          interp m "GreatestStartTime" = eval m (Task.start task)) /\
       (forall task, task ∈ get_tasks Demo.pb_all ->
          eval m (Task.start task) <= interp m "GreatestStartTime")).
Proof.
  assert (Hobj : EARLIEST ∈ objectives Demo.pb_all) by (do 2 right; left).
  split; [exact Hobj|].
  apply (earliest_objective Demo.pb_all false 60 false example_all_populated Hobj).
Defined.

Lemma flowtime_objective_example :
  FLOWTIME ∈ objectives Demo.pb_all /\
  exists self out,
    __init__ Demo.pb_all false 60 false = (inr self, out) /\
    minimize (Int "FlowTime") ∈ targets (_solver self) /\
    (forall m, Forall (fun f => holds m f = true) (assertions (_solver self)) ->
       interp m "FlowTime"
       = foldr (fun task acc => eval m (Task.end_ task) + acc) 0
               (get_tasks Demo.pb_all)).
Proof.
  assert (Hobj : FLOWTIME ∈ objectives Demo.pb_all) by (right; left).
  split; [exact Hobj|].
  apply (flowtime_objective Demo.pb_all false 60 false example_all_populated Hobj).
Defined.

Lemma one_target_per_objective_example :
  exists self out,
    __init__ Demo.pb_all false 60 false = (inr self, out) /\
    targets (_solver self)
    = [minimize (Int "horizon"); minimize (Int "FlowTime");
       minimize (Int "GreatestStartTime"); maximize (Int "SmallestStartTime")].
Proof.
  exact (one_target_per_objective Demo.pb_all false 60 false example_all_populated).
Defined.

Lemma start_objective_needs_a_task_example :
  get_tasks Demo.pb_empty = [] /\
  exists self out,
    __init__ Demo.pb_empty false 60 false = (inr self, out) /\
    Or [] ∈ assertions (_solver self) /\
    forall engine, z3.sound engine ->
      exists out', solve engine self = (inr false, self, out').
Proof.
  assert (Hnone : get_tasks Demo.pb_empty = []) by reflexivity.
  split; [exact Hnone|].
  apply (start_objective_needs_a_task Demo.pb_empty false 60 false Hnone).
  left. by left.
Defined.

Lemma failed_diversification_is_not_undone_example :
  let r := find_another_solution Demo.out_of_time "task1_start" Demo.self1 in
  current_solution Demo.self1 = Some (Demo.schedule 0 0 0) /\
  r.1.1 = inr false /\
  assertions (_solver r.1.2)
  = assertions (_solver Demo.self1) ++ [Ne (Int "task1_start") (IntVal 0)] /\
  current_solution r.1.2 = Some (Demo.schedule 0 0 0) /\
  ~ Forall (fun f => holds (Demo.schedule 0 0 0) f = true) (assertions (_solver r.1.2)).
Proof.
  intros r.
  assert (Hcur : current_solution Demo.self1 = Some (Demo.schedule 0 0 0))
    by (vm_compute; reflexivity).
  assert (Hr : r.1.1 = inr false) by (vm_compute; reflexivity).
  split; [exact Hcur|]. split; [exact Hr|].
  apply (failed_diversification_is_not_undone Demo.out_of_time "task1_start"
           Demo.self1 r.1.2 (Demo.schedule 0 0 0) 0 r.2 Hcur).
  - vm_compute; reflexivity.
  - rewrite <- Hr. unfold r.
    by destruct (find_another_solution _ _ _) as [[??]?].
Defined.

Lemma fruitless_session_changes_nothing_example :
  let calls := [(FindAnotherSolution "task1_start", Demo.engine);
                (Solve, Demo.out_of_time)] in
  results calls Demo.self0 = [inr false; inr false] /\
  final calls Demo.self0 = Demo.self0.
Proof.
  intros calls.
  assert (Hres : results calls Demo.self0 = [inr false; inr false])
    by (vm_compute; reflexivity).
  split; [exact Hres|].
  apply (fruitless_session_changes_nothing calls Demo.self0); [reflexivity|].
  rewrite Hres. by repeat constructor.
Defined.

Lemma returned_solution_meets_requirements_example :
  exists self out,
    __init__ Demo.pb false 60 false = (inr self, out) /\
    forall calls,
      sound_calls calls ->
      last (results calls self) = Some (inr true) ->
      exists solution,
        current_solution (final calls self) = Some solution /\
        (forall task, task ∈ get_tasks Demo.pb ->
           Forall (fun f => holds solution f = true) (Task.get_assertions task) /\
           (0 < Task.work_amount task ->
              Task.work_amount task <= total_work solution task)) /\
        Forall (fun f => holds solution f = true) (_constraints Demo.pb) /\
        (forall r, r ∈ get_resources Demo.pb ->
           Forall (fun f => holds solution f = true) (Resource.get_assertions r)).
Proof.
  apply (returned_solution_meets_requirements Demo.pb false 60 false).
  exact example_populated.
Defined.

Lemma diversification_is_bounded_example :
  let calls := (Solve, Demo.engine)
               :: diversify "task1_end" [Demo.engine; Demo.engine] in
  results calls Demo.self0 = [inr true; inr true; inr true] /\
  Z.of_nat (length calls) <= 5 - 0 + 1.
Proof.
  intros calls.
  assert (Hres : results calls Demo.self0 = [inr true; inr true; inr true])
    by (vm_compute; reflexivity).
  split; [exact Hres|].
  apply (diversification_is_bounded Demo.engine [Demo.engine; Demo.engine]
           "task1_end" 0 5 Demo.self0).
  - apply list_elem_of_In. simpl. right; left. reflexivity.
  - apply list_elem_of_In. simpl. do 3 right; left. reflexivity.
  - repeat constructor; apply search_sound.
  - fold calls. rewrite Hres. by repeat constructor.
Defined.

(** ** The limit of diversification

    Counterexample to C2 as stated, "the variable differs from the value it
    had in every model previously retained": only the values that
    [find_another_solution] read for that variable are excluded.  In the
    session below, on the
    example and with sound engines, all four calls return true.  The first
    diversification of task1 retains a schedule that starts task1 at 1; the
    diversification of task2 moves task1 to 2; the second diversification of
    task1 reads and excludes 2, and the start 1 of the earlier schedule,
    which no call read, comes back. *)
Lemma retained_value_returns :
  ~ (forall (before after : list (call * z3.engine)) (variable : string)
            (engine : z3.engine) (self : SchedulingSolver Problem.t)
            (solution : gmap string Z) (value : Z),
       let calls := before ++ after ++ [(FindAnotherSolution variable, engine)] in
       sound_calls calls ->
       current_solution (final before self) = Some solution ->
       solution !! variable = Some value ->
       last (results calls self) = Some (inr true) ->
       exists solution',
         current_solution (final calls self) = Some solution' /\
         solution' !! variable <> Some value).
Proof.
  intros Hclaim.
  destruct (Hclaim
              [(Solve, Demo.engine); (FindAnotherSolution "task1_start", Demo.engine)]
              [(FindAnotherSolution "task2_start", Demo.engine)]
              "task1_start" (search [Demo.schedule 1 2 1]) Demo.self0
              (Demo.schedule 1 1 1) 1)
    as (solution' & Hretained & Hdiffers).
  - repeat constructor; apply search_sound.
  - vm_compute; reflexivity.
  - vm_compute; reflexivity.
  - vm_compute; reflexivity.
  - assert (Hfinal :
      current_solution
        (final ([(Solve, Demo.engine);
                 (FindAnotherSolution "task1_start", Demo.engine)]
                ++ [(FindAnotherSolution "task2_start", Demo.engine)]
                ++ [(FindAnotherSolution "task1_start", search [Demo.schedule 1 2 1])])
               Demo.self0)
      = Some (Demo.schedule 1 2 1)) by (vm_compute; reflexivity).
    rewrite Hfinal in Hretained. injection Hretained as <-.
    apply Hdiffers. vm_compute; reflexivity.
Qed.
